(** * Library of Congress map retrieval scripts: a shallow embedding

    The development embeds the two scripts

      - [code/scripts/library_of_congress/loc_maps.py]
      - [code/scripts/library_of_congress/loc_sanborn_maps.py]

    and states the properties of the batch retrieval engine over the
    embedding.  Python values are represented as follows:

      - [str] values are lists of characters ([list ascii]);
      - [int] values are [Z];
      - [bytes] values are [list Byte.byte];
      - a YAML mapping with a fixed set of keys is a record;
      - an optional YAML scalar ([None] or a value) is an [option], and
        Python truthiness is written out ([None], [0] and [''] are falsy);
      - the compiled regular expression is a value of [Re.Pattern], whose
        matching engine is a field of the record; the substitution
        algorithm of [Pattern.sub] is written out over that engine;
      - the network, the clock and the working directory form the
        [World]; the requests issued, the files written and the log
        records emitted form the [State] threaded through [main]. *)

From Stdlib Require Import ZArith List Ascii String Lia Bool Sorted FinFun.
From Stdlib Require Import DecimalString DecimalZ DecimalPos.
From stdpp Require Import base option list gmap strings.
Import ListNotations.

(** ** Python strings *)

Definition str := list ascii.

(** A string literal. *)
Definition lit (x : string) : str := list_ascii_of_string x.

Definition ascii_eqb (a b : ascii) : bool := Ascii.eqb a b.

Fixpoint str_eqb (a b : str) : bool :=
  match a, b with
  | [], [] => true
  | x :: a', y :: b' => ascii_eqb x y && str_eqb a' b'
  | _, _ => false
  end.

(** [bool(s)] for a string: the empty string is falsy. *)
Definition nonempty (x : str) : bool :=
  match x with [] => false | _ :: _ => true end.

(** [x.startswith(pre)]. *)
Fixpoint starts_with (pre x : str) : bool :=
  match pre, x with
  | [], _ => true
  | c :: pre', d :: x' => ascii_eqb c d && starts_with pre' x'
  | _ :: _, [] => false
  end.

(** [c in s] for a character. *)
Definition mem_char (c : ascii) (x : str) : bool := existsb (ascii_eqb c) x.

(** [str(i)] for an integer: the decimal numeral, with a leading ['-']
    for a negative number. *)
Definition py_str (i : Z) : str :=
  list_ascii_of_string (NilZero.string_of_int (Z.to_int i)).

(** [len(s)] as a Python integer. *)
Definition len (x : str) : Z := Z.of_nat (length x).

Definition is_sign (c : ascii) : bool :=
  ascii_eqb c "+"%char || ascii_eqb c "-"%char.

(** [s.zfill(width)]: zeros are inserted on the left, after a leading
    sign character; a string at least [width] long is returned as it is. *)
Definition zfill (x : str) (width : Z) : str :=
  if (width <=? len x)%Z then x
  else
    let fill := repeat "0"%char (Z.to_nat (width - len x)) in
    match x with
    | c :: rest => if is_sign c then c :: fill ++ rest else fill ++ x
    | [] => fill
    end.

(** The characters of a decimal numeral: the digits and the minus sign. *)
Definition is_digit (c : ascii) : bool :=
  (48 <=? nat_of_ascii c) && (nat_of_ascii c <=? 57).

Definition numeral_char (c : ascii) : bool :=
  is_digit c || ascii_eqb c "-"%char.

(** [sep.join(l)]. *)
Fixpoint join (sep : str) (l : list str) : str :=
  match l with
  | [] => []
  | [x] => x
  | x :: rest => x ++ sep ++ join sep rest
  end.

(** [s[i:j]] for [0 <= i], [0 <= j]. *)
Definition slice (x : str) (i j : nat) : str := take (j - i) (drop i x).

(** [s.split(sep)] for a one-character separator. *)
Fixpoint split (sep : ascii) (x : str) : list str :=
  match x with
  | [] => [[]]
  | c :: rest =>
      if ascii_eqb c sep then [] :: split sep rest
      else match split sep rest with
           | [] => [[c]]
           | w :: ws => (c :: w) :: ws
           end
  end.

(** [range(start, stop, 1)]. *)
Definition range (start stop : Z) : list Z :=
  map (fun k => (start + Z.of_nat k)%Z) (seq 0 (Z.to_nat (stop - start))).

(** ** The [re] module

    Both scripts compile each group's [regex] once and call
    [regex.sub(repl, default_path)] in the inner loop.  The matching
    engine itself is the environment's: a compiled pattern is a record
    carrying its [search] function.  What [Pattern.sub] does with the
    engine is written out: it compiles the replacement template, then
    scans the text from left to right, replacing every match. *)

Module Re.

(** A match object: the span of the whole match and of each capturing
    group ([None] for a group that did not take part). *)
Record Match := mkMatch {
  m_start : nat;
  m_end : nat;
  m_groups : list (option (nat * nat))
}.

(** A compiled pattern.  [search text pos must_advance] is the engine's
    leftmost match starting at or after [pos]; with [must_advance] an
    empty match at [pos] itself is not accepted. *)
Record Pattern := mkPattern {
  groups : nat;
  groupindex : list (str * nat);
  search : str -> nat -> bool -> option Match
}.

(** What every engine guarantees about the spans it reports. *)
Definition well_behaved (p : Pattern) : Prop :=
  forall text pos adv m,
    pos <= length text ->
    search p text pos adv = Some m ->
    pos <= m_start m /\ m_start m <= m_end m /\ m_end m <= length text /\
    (adv = true -> pos < m_end m).

(** *** Replacement templates *)

Inductive TemplateItem :=
| TLit (s : str)
| TGroup (index : nat).

Definition backslash : ascii := "\"%char.

Definition between (lo hi : nat) (c : ascii) : bool :=
  (lo <=? nat_of_ascii c) && (nat_of_ascii c <=? hi).

Definition is_octdigit (c : ascii) : bool := between 48 55 c.
Definition is_ascii_letter (c : ascii) : bool := between 65 90 c || between 97 122 c.
Definition digit_val (c : ascii) : nat := nat_of_ascii c - 48.

(** The tokenizer: a backslash and the character after it form one
    token; a backslash at the end of the template is an error. *)
Fixpoint tokenize (x : str) : option (list str) :=
  match x with
  | [] => Some []
  | c :: rest =>
      if ascii_eqb c backslash then
        match rest with
        | [] => None
        | d :: rest' => option_map (cons [c; d]) (tokenize rest')
        end
      else option_map (cons [c]) (tokenize rest)
  end.

(** [getuntil]: the tokens up to the terminator, which is consumed; the
    name may not be empty and must be terminated. *)
Fixpoint getuntil (term : ascii) (toks : list str) (result : str)
  : option (str * list str) :=
  match toks with
  | [] => None
  | t :: rest =>
      if str_eqb t [term]
      then (if nonempty result then Some (result, rest) else None)
      else getuntil term rest (result ++ t)
  end.

Definition int_of_decimal (x : str) : nat :=
  fold_left (fun acc c => 10 * acc + digit_val c) x 0.

Definition is_identifier (x : str) : bool :=
  match x with
  | [] => false
  | c :: rest =>
      (is_ascii_letter c || ascii_eqb c "_"%char) &&
      forallb (fun d => is_ascii_letter d || is_digit d || ascii_eqb d "_"%char) rest
  end.

Fixpoint lookup_name (name : str) (idx : list (str * nat)) : option nat :=
  match idx with
  | [] => None
  | (k, v) :: rest => if str_eqb name k then Some v else lookup_name name rest
  end.

(** The group a [\g<name>] reference denotes: a decimal number, or a
    name of the pattern. *)
Definition group_of_name (idx : list (str * nat)) (name : str) : option nat :=
  if forallb is_digit name then Some (int_of_decimal name)
  else if is_identifier name then lookup_name name idx
  else None.

(** The escapes that stand for one character. *)
Definition escape (c : ascii) : option ascii :=
  if ascii_eqb c "a"%char then Some (ascii_of_nat 7)
  else if ascii_eqb c "b"%char then Some (ascii_of_nat 8)
  else if ascii_eqb c "f"%char then Some (ascii_of_nat 12)
  else if ascii_eqb c "n"%char then Some (ascii_of_nat 10)
  else if ascii_eqb c "r"%char then Some (ascii_of_nat 13)
  else if ascii_eqb c "t"%char then Some (ascii_of_nat 9)
  else if ascii_eqb c "v"%char then Some (ascii_of_nat 11)
  else if ascii_eqb c backslash then Some backslash
  else None.

Section ParseTemplate.
Variable ngroups : nat.
Variable idx : list (str * nat).

(** [parse_template]: the template as a list of literal pieces and
    group references, or [None] when the template is rejected
    ([re.error], or [IndexError] for an unknown group name). *)
Fixpoint parse_tokens (fuel : nat) (toks : list str) (literal : str)
  : option (list TemplateItem) :=
  match fuel with
  | O => None
  | S fuel' =>
      let continue := parse_tokens fuel' in
      let addgroup index rest :=
        if ngroups <? index then None
        else option_map (fun r => TLit literal :: TGroup index :: r) (continue rest [])
      in
      match toks with
      | [] => Some [TLit literal]
      | [c] :: rest => continue rest (literal ++ [c])
      | [b; c] :: rest =>
          if ascii_eqb c "g"%char then
            match rest with
            | t :: rest1 =>
                if str_eqb t (lit "<") then
                  match getuntil ">"%char rest1 [] with
                  | None => None
                  | Some (name, rest2) =>
                      match group_of_name idx name with
                      | None => None
                      | Some index => addgroup index rest2
                      end
                  end
                else None
            | [] => None
            end
          else if ascii_eqb c "0"%char then
            match rest with
            | [d1] :: rest1 =>
                if is_octdigit d1 then
                  match rest1 with
                  | [d2] :: rest2 =>
                      if is_octdigit d2
                      then continue rest2
                             (literal ++ [ascii_of_nat (8 * digit_val d1 + digit_val d2)])
                      else continue rest1 (literal ++ [ascii_of_nat (digit_val d1)])
                  | _ => continue rest1 (literal ++ [ascii_of_nat (digit_val d1)])
                  end
                else continue rest (literal ++ [ascii_of_nat 0])
            | _ => continue rest (literal ++ [ascii_of_nat 0])
            end
          else if is_digit c then
            match rest with
            | [d2] :: rest1 =>
                if is_digit d2 then
                  match rest1 with
                  | [d3] :: rest2 =>
                      if is_octdigit c && is_octdigit d2 && is_octdigit d3 then
                        let v := 64 * digit_val c + 8 * digit_val d2 + digit_val d3 in
                        if 255 <? v then None
                        else continue rest2 (literal ++ [ascii_of_nat v])
                      else addgroup (10 * digit_val c + digit_val d2) rest1
                  | _ => addgroup (10 * digit_val c + digit_val d2) rest1
                  end
                else addgroup (digit_val c) rest
            | _ => addgroup (digit_val c) rest
            end
          else
            match escape c with
            | Some ch => continue rest (literal ++ [ch])
            | None =>
                if is_ascii_letter c then None
                else continue rest (literal ++ [b; c])
            end
      | _ => None
      end
  end.

Definition parse_template (template : str) : option (list TemplateItem) :=
  match tokenize template with
  | None => None
  | Some toks => parse_tokens (S (length toks)) toks []
  end.
End ParseTemplate.

(** The filter [sub] applies to each match: a template without a
    backslash is a literal, any other template goes to the template
    compiler first. *)
Definition compile_template (p : Pattern) (repl : str)
  : option (list TemplateItem) :=
  if mem_char backslash repl
  then parse_template (groups p) (groupindex p) repl
  else Some [TLit repl].

Definition group_span (m : Match) (index : nat) : option (nat * nat) :=
  match index with
  | O => Some (m_start m, m_end m)
  | S k => match nth_error (m_groups m) k with
           | Some sp => sp
           | None => None
           end
  end.

(** [expand_template]: literal pieces as they are, each group reference
    replaced by the text of the group (empty when it did not match). *)
Definition expand_item (text : str) (m : Match) (it : TemplateItem) : str :=
  match it with
  | TLit s => s
  | TGroup index =>
      match group_span m index with
      | Some (b, e) => slice text b e
      | None => []
      end
  end.

Definition expand (filter : list TemplateItem) (text : str) (m : Match) : str :=
  concat (map (expand_item text m) filter).

(** *** [Pattern.sub] *)

(** The loop of [pattern_subx] with [count = 0]: [pos] is where the
    next search starts, [i] is the end of the last match, [pieces] the
    list that is joined at the end.  [fuel] bounds the number of
    searches. *)
Fixpoint sub_loop (p : Pattern) (filter : list TemplateItem) (text : str)
         (fuel : nat) (pos : nat) (must_advance : bool) (i : nat)
         (pieces : list str) : list str :=
  match fuel with
  | O => pieces ++ [drop i text]
  | S fuel' =>
      match search p text pos must_advance with
      | None => pieces ++ [drop i text]
      | Some m =>
          let b := m_start m in
          let e := m_end m in
          sub_loop p filter text fuel' e (e =? b) e
                   (pieces ++ [slice text i b; expand filter text m])
      end
  end.

(** Searches needed on a text: each one either ends the loop, moves
    [pos] forward, or turns [must_advance] on at the same [pos]. *)
Definition sub_fuel (text : str) : nat := 2 * length text + 2.

(** Searches the loop can still make from [pos]. *)
Definition searches_left (text : str) (pos : nat) (must_advance : bool) : nat :=
  2 * (length text - pos) + (if must_advance then 0 else 1).

(** [regex.sub(repl, text)]; [None] is [re.error]. *)
Definition sub (p : Pattern) (repl text : str) : option str :=
  match compile_template p repl with
  | None => None
  | Some filter =>
      Some (concat (sub_loop p filter text (sub_fuel text) 0 false 0 []))
  end.

(** The matches [sub] replaces, in the order the loop finds them. *)
Fixpoint finditer (p : Pattern) (text : str) (fuel : nat) (pos : nat)
         (must_advance : bool) : list Match :=
  match fuel with
  | O => []
  | S fuel' =>
      match search p text pos must_advance with
      | None => []
      | Some m =>
          m :: finditer p text fuel' (m_end m) (m_end m =? m_start m)
      end
  end.

(** All the matches of a pattern in a text. *)
Definition matches (p : Pattern) (text : str) : list Match :=
  finditer p text (sub_fuel text) 0 false.

(** The text with each match of the list [ms], taken from position [i]
    on, replaced by what [repl] gives for it. *)
Fixpoint replace_matches (text : str) (i : nat) (ms : list Match)
         (repl : Match -> str) : str :=
  match ms with
  | [] => drop i text
  | m :: rest =>
      slice text i (m_start m) ++ repl m ++ replace_matches text (m_end m) rest repl
  end.

(** The substitution as the specification words it in one place: only
    the first match is replaced, the text after it is left as it is. *)
Definition spec_replace_first (p : Pattern) (repl text : str) : str :=
  match search p text 0 false with
  | None => text
  | Some m => take (m_start m) text ++ repl ++ drop (m_end m) text
  end.

(** *** An engine: patterns without special characters

    [literal pat] is the compiled form of a pattern that consists of
    ordinary characters only: it matches the text [pat] itself, has no
    groups, and its leftmost match is the first occurrence. *)

(** Try the start positions [b], [b + 1], ... in turn; [rest] is the
    text from [b] on, [skip] says that an empty match at [b] is not
    accepted. *)
Fixpoint literal_scan (pat rest : str) (b : nat) (skip : bool) : option nat :=
  if starts_with pat rest && negb (skip && negb (nonempty pat)) then Some b
  else match rest with
       | [] => None
       | _ :: rest' => literal_scan pat rest' (S b) false
       end.

Definition literal_search (pat : str) (text : str) (pos : nat) (adv : bool)
  : option Match :=
  if length text <? pos then None
  else match literal_scan pat (drop pos text) pos adv with
       | Some b => Some (mkMatch b (b + length pat) [])
       | None => None
       end.

Definition literal (pat : str) : Pattern :=
  mkPattern 0 [] (literal_search pat).

End Re.

(** ** [pathlib] (POSIX flavour)

    [loc_maps.py] builds file names with [Path(...).with_suffix(...)] and
    file paths with [Path(Path.cwd(), output_path, filename)].  A path is
    its root (['], ['/'] or ['//']) and its components. *)

Module PathLib.

Record Path := mkPath {
  root : str;
  parts : list str
}.

Definition sep : ascii := "/"%char.

(** [s.lstrip('/')]. *)
Fixpoint lstrip_sep (x : str) : str :=
  match x with
  | c :: rest => if ascii_eqb c sep then lstrip_sep rest else x
  | [] => []
  end.

(** [splitroot]: exactly two leading slashes are kept as the root
    ['//'], any other number of them is the root ['/']. *)
Definition splitroot (part : str) : str * str :=
  match part with
  | c :: _ =>
      if ascii_eqb c sep then
        let stripped := lstrip_sep part in
        if length part - length stripped =? 2
        then ([sep; sep], stripped)
        else ([sep], stripped)
      else ([], part)
  | [] => ([], part)
  end.

(** The components of a relative part: empty ones and ['.'] are dropped. *)
Definition keep_component (x : str) : bool :=
  nonempty x && negb (str_eqb x (lit ".")).

Definition components (rel : str) : list str :=
  List.filter keep_component (split sep rel).

(** [parse_parts], over the arguments from the last to the first: an
    empty argument is skipped, a rooted argument ends the scan. *)
Fixpoint parse_parts_rev (args_rev : list str) : str * list str :=
  match args_rev with
  | [] => ([], [])
  | part :: before =>
      if nonempty part then
        let '(rt, rel) := splitroot part in
        if nonempty rt then (rt, components rel)
        else let '(rt', ps) := parse_parts_rev before in (rt', ps ++ components rel)
      else parse_parts_rev before
  end.

(** [Path(a, b, ...)] for string arguments. *)
Definition of_strs (args : list str) : Path :=
  let '(rt, ps) := parse_parts_rev (rev args) in mkPath rt ps.

(** What a [Path] argument contributes as an argument of [Path]: its parts, the
    root first. *)
Definition as_args (p : Path) : list str :=
  (if nonempty (root p) then [root p] else []) ++ parts p.

(** [p.name]. *)
Definition name (p : Path) : str := List.last (parts p) [].

(** [s.rfind('.')]. *)
Fixpoint rfind_dot (x : str) : option nat :=
  match x with
  | [] => None
  | c :: rest =>
      match rfind_dot rest with
      | Some k => Some (S k)
      | None => if ascii_eqb c "."%char then Some 0 else None
      end
  end.

(** [p.suffix]: from the last dot of the name on, unless that dot is
    the first or the last character of the name. *)
Definition suffix (p : Path) : str :=
  let nm := name p in
  match rfind_dot nm with
  | Some i => if (0 <? i) && (i <? length nm - 1) then drop i nm else []
  | None => []
  end.

Definition starts_with_dot (x : str) : bool :=
  match x with c :: _ => ascii_eqb c "."%char | [] => false end.

(** [p.with_suffix(suffix)]; [None] is [ValueError]. *)
Definition with_suffix (p : Path) (sfx : str) : option Path :=
  if mem_char sep sfx then None
  else if (nonempty sfx && negb (starts_with_dot sfx)) || str_eqb sfx (lit ".") then None
  else
    let nm := name p in
    if nonempty nm then
      let old_suffix := suffix p in
      let nm' := if nonempty old_suffix
                 then take (length nm - length old_suffix) nm ++ sfx
                 else nm ++ sfx in
      Some (mkPath (root p) (removelast (parts p) ++ [nm']))
    else None.

(** [str(p)]. *)
Definition to_str (p : Path) : str :=
  let x := root p ++ join [sep] (parts p) in
  if nonempty x then x else lit ".".

End PathLib.

(** ** The world and the effects of a run *)

Inductive level := DEBUG | INFO | WARNING | ERROR | CRITICAL.

(** The exceptions that can leave [main]: [re.error] from the template
    compiler, [ValueError] from [with_suffix], and the exception
    [requests.get] raises when no response is obtained. *)
Inductive exn :=
| ReError
| ValueError
| RequestException (url : str).

Record Response := mkResponse {
  status_code : Z;
  content : list Byte.byte
}.

(** [http_get n url] is what the [n]-th request of the run, sent to
    [url], comes back with: a response, or [None] when the request fails
    at the network level.  [clock n] is the ISO rendering of the [n]-th
    reading of the clock; [cwd] is the working directory. *)
Record World := mkWorld {
  http_get : nat -> str -> option Response;
  clock : nat -> str;
  cwd : str
}.

Record State := mkState {
  requests : list str;
  files : gmap str (list Byte.byte);
  log : list (level * str);
  log_file : option str;
  ticks : nat
}.

Definition initial : State := mkState [] ∅ [] None 0.

(** Computations: the state is threaded, an exception ends the run. *)
Definition M (A : Type) : Type := State -> State * (exn + A).

Definition ret {A} (a : A) : M A := fun st => (st, inr a).

Definition raise {A} (e : exn) : M A := fun st => (st, inl e).

Definition bind {A B} (m : M A) (k : A -> M B) : M B :=
  fun st =>
    match m st with
    | (st', inl e) => (st', inl e)
    | (st', inr a) => k a st'
    end.

Declare Scope eff_scope.
Delimit Scope eff_scope with eff.
Bind Scope eff_scope with M.

Notation "x <- m ;; k" := (bind m (fun x => k))
  (at level 100, m at next level, right associativity) : eff_scope.
Notation "m ;; k" := (bind m (fun _ => k))
  (at level 100, right associativity) : eff_scope.

Open Scope eff_scope.

(** A [for] loop: the body runs on each element in turn; an exception
    leaves the loop. *)
Fixpoint for_each {A} (l : list A) (body : A -> M unit) : M unit :=
  match l with
  | [] => ret tt
  | a :: rest => body a ;; for_each rest body
  end.

Definition of_option {A} (e : exn) (o : option A) : M A :=
  match o with
  | Some a => ret a
  | None => raise e
  end.

(** The state once a request to [url] has been sent, once [data] has
    been written to [filepath], once a record has been logged. *)
Definition sent (url : str) (st : State) : State :=
  mkState (requests st ++ [url]) (files st) (log st) (log_file st) (ticks st).

Definition stored (filepath : str) (data : list Byte.byte) (st : State) : State :=
  mkState (requests st) (<[filepath := data]> (files st)) (log st) (log_file st) (ticks st).

Definition logged (lvl : level) (msg : str) (st : State) : State :=
  mkState (requests st) (files st) (log st ++ [(lvl, msg)]) (log_file st) (ticks st).

(** [requests.get(url)]: the request is sent, then the response is
    returned or the exception raised. *)
Definition requests_get (w : World) (url : str) : M Response :=
  fun st =>
    match http_get w (length (requests st)) url with
    | Some r => (sent url st, inr r)
    | None => (sent url st, inl (RequestException url))
    end.

(** [write_file(filepath, data, 'wb')]: the file holds [data] afterwards,
    whatever it held before.  The file system is taken to accept the
    write. *)
Definition write_file (filepath : str) (data : list Byte.byte) : M unit :=
  fun st => (stored filepath data st, inr tt).

(** [logger.info(msg)]. *)
Definition logger_info (msg : str) : M unit :=
  fun st => (logged INFO msg st, inr tt).

(** [logger.addHandler(logging.FileHandler(filepath))]. *)
Definition add_file_handler (filepath : str) : M unit :=
  fun st =>
    (mkState (requests st) (files st) (log st) (Some filepath) (ticks st), inr tt).

(** [dt.datetime.now().isoformat()]. *)
Definition now_isoformat (w : World) : M str :=
  fun st =>
    (mkState (requests st) (files st) (log st) (log_file st) (S (ticks st)),
     inr (clock w (ticks st))).

(** The record of a stored image, and what marks the last record of a
    completed run. *)
Definition renamed (shown : str) : level * str :=
  (INFO, lit "Renamed file to " ++ shown).

Definition is_end_record (r : level * str) : bool :=
  starts_with (lit "End run: ") (snd r).

Definition is_error_record (r : level * str) : bool :=
  match fst r with
  | ERROR | CRITICAL => true
  | _ => false
  end.

(** The responses a run over [items] receives when its first request is
    the [n]-th of the world and every item has a URL and gets an answer;
    [None] as soon as one item has no URL or no answer. *)
Fixpoint fetch_all {A} (w : World) (url_of : A -> option str) (n : nat)
         (items : list A) : option (list Response) :=
  match items with
  | [] => Some []
  | x :: rest =>
      match url_of x with
      | Some url =>
          match http_get w n url with
          | Some r => option_map (cons r) (fetch_all w url_of (S n) rest)
          | None => None
          end
      | None => None
      end
  end.

(** ** Optional configuration values *)

(** [bool(x)] for an optional integer and an optional string. *)
Definition truthy_int (o : option Z) : bool :=
  match o with
  | Some z => negb (z =? 0)%Z
  | None => false
  end.

Definition truthy_str (o : option str) : bool :=
  match o with
  | Some x => nonempty x
  | None => false
  end.

(** [str(x)], as an f-string field renders it. *)
Definition fmt_int (o : option Z) : str :=
  match o with
  | Some z => py_str z
  | None => lit "None"
  end.

Definition fmt_str (o : option str) : str :=
  match o with
  | Some x => x
  | None => lit "None"
  end.

(** ** [loc_maps.py] *)

Module LocMaps.

(** [map_config['filename_segments']]. *)
Record NameSegments := mkNameSegments {
  name : list str;
  year : option Z;
  vol : option str
}.

(** [path['index']]. *)
Record Index := mkIndex {
  start : Z;
  stop : Z;
  zfill_width : Z
}.

(** One entry of [map_config['paths']]; [regex] is the pattern as
    [re.compile] returns it. *)
Record PathConfig := mkPathConfig {
  prefix : str;
  part : option str;
  default_path : str;
  regex : Re.Pattern;
  index : Index
}.

Record MapConfig := mkMapConfig {
  filename_segments : NameSegments;
  paths : list PathConfig
}.

Definition vol_segment (ns : NameSegments) : str :=
  lit "vol_" ++ fmt_str (vol ns).

(** [create_filename], lines 74-80: the segments of a log file name. *)
Definition log_segments (ns : NameSegments) : list str :=
  let segments := name ns in
  let segments :=
    if truthy_int (year ns) then segments ++ [fmt_int (year ns)] else segments in
  let segments :=
    if truthy_str (vol ns) then segments ++ [vol_segment ns] else segments in
  segments.

(** Lines 90-93: a number shorter than four characters is padded. *)
Definition pad_num (num : str) : str :=
  if (len num <? 4)%Z then zfill num 4 else num.

(** Lines 74-93: the segments of an image file name. *)
Definition image_segments (ns : NameSegments) (part num : option str) : list str :=
  let segments := log_segments ns in
  let segments :=
    if truthy_str (vol ns) then segments ++ [vol_segment ns] else segments in
  let segments :=
    if truthy_str part then segments ++ [fmt_str part] else segments in
  let segments :=
    if truthy_str num then segments ++ [pad_num (fmt_str num)] else segments in
  segments.

(** [create_filename(name_segments, part, num, extension)]; [None] is
    the [ValueError] of [with_suffix]. *)
Definition create_filename (ns : NameSegments) (part num : option str)
           (extension : str) : option PathLib.Path :=
  if str_eqb extension (lit ".log")
  then PathLib.with_suffix
         (PathLib.of_strs [join (lit "-") (log_segments ns)]) extension
  else PathLib.with_suffix
         (PathLib.of_strs [join (lit "-") (image_segments ns part num)]) extension.

(** [create_filepath(output_path, filename)]. *)
Definition create_filepath (w : World) (output_path : str)
           (filename : PathLib.Path) : PathLib.Path :=
  PathLib.of_strs
    (PathLib.as_args (PathLib.of_strs [cwd w]) ++ [output_path] ++
     PathLib.as_args filename).

Definition configure_logger (w : World) (output_path : str)
           (ns : NameSegments) : M unit :=
  filename <- of_option ValueError (create_filename ns None None (lit ".log")) ;;
  let filepath := create_filepath w output_path filename in
  add_file_handler (PathLib.to_str filepath).

(** Lines 224-226: the image number. *)
Definition image_num (zfill_width : Z) (i : Z) : str :=
  let num := py_str i in
  if (0 <? zfill_width)%Z then zfill num zfill_width else num.

(** Line 229: the replacement. *)
Definition replacement (path : PathConfig) (i : Z) : str :=
  prefix path ++ image_num (zfill_width (index path)) i.

(** The numeral segment of the image file name of index [i]: the last
    segment [create_filename] appends when [main] calls it (line 237)
    with the image number of line 224-226. *)
Definition filename_numeral (ns : NameSegments) (part : option str)
           (zfill_width : Z) (i : Z) : str :=
  List.last (image_segments ns part (Some (image_num zfill_width i))) [].

(** Line 230: the resource URL; [None] when [regex.sub] raises. *)
Definition resource_url (host : str) (path : PathConfig) (i : Z) : option str :=
  match Re.sub (regex path) (replacement path i) (default_path path) with
  | Some p => Some (host ++ p)
  | None => None
  end.

(** The body of the inner loop, lines 223-244. *)
Definition retrieve (w : World) (host output_path : str) (ns : NameSegments)
           (path : PathConfig) (i : Z) : M unit :=
  let num := image_num (zfill_width (index path)) i in
  url <- of_option ReError (resource_url host path i) ;;
  response <- requests_get w url ;;
  filename <- of_option ValueError
                   (create_filename ns (part path) (Some num) (lit ".jpg")) ;;
  let filepath := create_filepath w output_path filename in
  write_file (PathLib.to_str filepath) (content response) ;;
  logger_info (lit "Renamed file to " ++ PathLib.name filepath).

(** The (group, index) pairs of a job as the specification orders
    them: the groups in the order of the configuration, and within a
    group the indices of [start, stop) in ascending order. *)
Definition work_items (map_config : MapConfig) : list (PathConfig * Z) :=
  flat_map (fun path => map (pair path) (range (start (index path)) (stop (index path))))
           (paths map_config).

Definition item_url (host : str) (item : PathConfig * Z) : option str :=
  resource_url host (fst item) (snd item).


(** [main], from the loaded configuration on: [host] is
    [config['host']], [map_config] is [config['maps'][map_key]]. *)
Definition main (w : World) (host : str) (map_config : MapConfig)
           (output_path : str) : M unit :=
  let ns := filename_segments map_config in
  start_date_time <- now_isoformat w ;;
  configure_logger w output_path ns ;;
  logger_info (lit "Start run: " ++ start_date_time) ;;
  for_each (paths map_config) (fun path =>
        for_each (range (start (index path)) (stop (index path)))
                 (retrieve w host output_path ns path)) ;;
  end_date_time <- now_isoformat w ;;
  logger_info (lit "End run: " ++ end_date_time).

End LocMaps.

(** ** [loc_sanborn_maps.py] *)

Module LocSanborn.

(** One entry of [municipality['paths']]. *)
Record PathConfig := mkPathConfig {
  prefix : str;
  part : option str;
  pad_num : bool;
  default_path : str;
  regex : Re.Pattern;
  index_start : Z;
  index_stop : Z
}.

(** [config['municipalities'][municipality_key]]. *)
Record Municipality := mkMunicipality {
  name : str;
  state : str;
  year : option Z;
  vol : option str;
  extension : str;
  paths : list PathConfig
}.

(** The part of the names the log file and the image files share. *)
Definition stem (m : Municipality) : str :=
  let filename := lit "Sanborn-LOC" in
  let filename :=
    filename ++ lit "-" ++ name m ++ lit "-" ++ state m ++ lit "-" ++ fmt_int (year m) in
  if truthy_str (vol m) then filename ++ lit "-vol_" ++ fmt_str (vol m) else filename.

Definition configure_logger (m : Municipality) (output_path : str) : M unit :=
  add_file_handler (output_path ++ lit "/" ++ stem m ++ lit ".log").

(** [create_filename(municipality, image_id, part)]. *)
Definition create_filename (m : Municipality) (image_id : str)
           (part : option str) : str :=
  let filename := stem m in
  let filename :=
    if truthy_str part then filename ++ lit "-" ++ fmt_str part else filename in
  let image_id := if (len image_id <? 4)%Z then zfill image_id 4 else image_id in
  filename ++ lit "-" ++ image_id ++ lit "." ++ extension m.

(** Lines 193-195: the image number. *)
Definition image_num (pad : bool) (i : Z) : str :=
  let num := py_str i in
  if pad then zfill num 4 else num.

(** Line 198: the replacement. *)
Definition replacement (path : PathConfig) (i : Z) : str :=
  prefix path ++ image_num (pad_num path) i.

(** Line 199: the resource URL; [None] when [regex.sub] raises. *)
Definition resource_url (host : str) (path : PathConfig) (i : Z) : option str :=
  match Re.sub (regex path) (replacement path i) (default_path path) with
  | Some p => Some (host ++ p)
  | None => None
  end.

(** The body of the inner loop, lines 192-210. *)
Definition retrieve (w : World) (host output_path : str) (m : Municipality)
           (path : PathConfig) (i : Z) : M unit :=
  let num := image_num (pad_num path) i in
  url <- of_option ReError (resource_url host path i) ;;
  response <- requests_get w url ;;
  let new_filename := create_filename m num (part path) in
  write_file (output_path ++ lit "/" ++ new_filename) (content response) ;;
  logger_info (lit "Renamed file to " ++ new_filename).

(** The (group, index) pairs of a job as the specification orders
    them. *)
Definition work_items (m : Municipality) : list (PathConfig * Z) :=
  flat_map (fun path => map (pair path) (range (index_start path) (index_stop path)))
           (paths m).

Definition item_url (host : str) (item : PathConfig * Z) : option str :=
  resource_url host (fst item) (snd item).


(** [main], from the loaded configuration on. *)
Definition main (w : World) (host : str) (m : Municipality)
           (output_path : str) : M unit :=
  start_date_time <- now_isoformat w ;;
  configure_logger m output_path ;;
  logger_info (lit "Start run: " ++ start_date_time) ;;
  for_each (paths m) (fun path =>
        for_each (range (index_start path) (index_stop path))
                 (retrieve w host output_path m path)) ;;
  end_date_time <- now_isoformat w ;;
  logger_info (lit "End run: " ++ end_date_time).

End LocSanborn.

(** ** Reading a numeral back *)

Definition uint_value (x : str) : option Decimal.uint :=
  NilEmpty.uint_of_string (string_of_list_ascii x).

(** The integer a zero-filled numeral denotes. *)
Definition int_value (x : str) : option Z :=
  match x with
  | c :: rest =>
      if ascii_eqb c "-"%char
      then option_map (fun d => (- Z.of_uint d)%Z) (uint_value rest)
      else option_map Z.of_uint (uint_value x)
  | [] => None
  end.

(** ** The two ends of [main] *)



(** ** Names, paths and files of a run *)

(** A string without a dot and without a slash. *)
Definition plain (x : str) : bool :=
  negb (mem_char "."%char x) && negb (mem_char PathLib.sep x).

(** A suffix [with_suffix] accepts and that is not empty. *)
Definition extension_like (sfx : str) : bool :=
  PathLib.starts_with_dot sfx && negb (mem_char PathLib.sep sfx)
  && negb (str_eqb sfx (lit ".")).

(** A component of a parsed path: not empty, not ['.'], without a slash. *)
Definition component (c : str) : bool :=
  PathLib.keep_component c && negb (mem_char PathLib.sep c).

(** The roots [splitroot] returns. *)
Definition root_like (r : str) : bool :=
  str_eqb r [] || str_eqb r [PathLib.sep] || str_eqb r [PathLib.sep; PathLib.sep].

(** A path as [Path(...)] builds it. *)
Definition well_formed (p : PathLib.Path) : bool :=
  root_like (PathLib.root p) && forallb component (PathLib.parts p).


(** The files once the item [k] of [items] has been stored with the
    body of the response [k] of [rs], for every [k], in order. *)
Fixpoint store_all {A} (target : A -> str) (items : list A) (rs : list Response)
         (fs : gmap str (list Byte.byte)) : gmap str (list Byte.byte) :=
  match items, rs with
  | x :: items', r :: rs' => store_all target items' rs' (<[target x := content r]> fs)
  | _, _ => fs
  end.



(** ** A sample job

    The job of the end-to-end scenario: one group over the indices 1, 2
    and 3, the naming of the Springfield volume. *)

Module Sample.
Definition host : str := lit "https://example.org".
Definition out : str := lit "maps".

Definition naming : LocMaps.NameSegments :=
  LocMaps.mkNameSegments [lit "Sanborn-LOC"; lit "Springfield"; lit "IL"]
                         (Some 1925%Z) None.

Definition group : LocMaps.PathConfig :=
  LocMaps.mkPathConfig (lit "p") None (lit "/img/_PLACEHOLDER.jpg")
                       (Re.literal (lit "_PLACEHOLDER")) (LocMaps.mkIndex 1 4 4).

Definition job : LocMaps.MapConfig := LocMaps.mkMapConfig naming [group].

Definition sanborn_group : LocSanborn.PathConfig :=
  LocSanborn.mkPathConfig (lit "p") None true (lit "/img/_PLACEHOLDER.jpg")
                          (Re.literal (lit "_PLACEHOLDER")) 1 4.

Definition municipality : LocSanborn.Municipality :=
  LocSanborn.mkMunicipality (lit "Springfield") (lit "IL") (Some 1925%Z) None
                            (lit "jpg") [sanborn_group].

Definition page : list Byte.byte := [Byte.x89; Byte.x50; Byte.x4e; Byte.x47].

Definition timestamp (n : nat) : str :=
  lit "2024-01-01T00:00:0" ++ py_str (Z.of_nat n).

(** Every request is answered with status [status]. *)
Definition answering (status : Z) : World :=
  mkWorld (fun _ _ => Some (mkResponse status page)) timestamp (lit "/home/user").

End Sample.

(** * Properties *)

(** ** Strings *)

Lemma len_nonneg (x : str) : (0 <= len x)%Z.
Proof. unfold len. lia. Qed.

Lemma ascii_eqb_eq (a b : ascii) : ascii_eqb a b = true <-> a = b.
Proof. apply Ascii.eqb_eq. Qed.

Lemma str_eqb_eq (a b : str) : str_eqb a b = true <-> a = b.
Proof.
  revert b. induction a as [|x a IH]; intros [|y b]; simpl; split; try easy.
  - intros H. apply andb_true_iff in H as [H1 H2].
    apply ascii_eqb_eq in H1. apply IH in H2. congruence.
  - intros H. injection H as -> ->. apply andb_true_iff. split.
    + now apply ascii_eqb_eq.
    + now apply IH.
Qed.

Lemma mem_char_app (c : ascii) (x y : str) :
  mem_char c (x ++ y) = mem_char c x || mem_char c y.
Proof. unfold mem_char. apply existsb_app. Qed.

Lemma uint_chars (d : Decimal.uint) :
  forallb is_digit (list_ascii_of_string (NilEmpty.string_of_uint d)) = true.
Proof. induction d; simpl; auto. Qed.

Lemma uint_zero_chars (d : Decimal.uint) :
  forallb is_digit (list_ascii_of_string (NilZero.string_of_uint d)) = true.
Proof. destruct d; try apply (uint_chars (_ d)); reflexivity. Qed.

Lemma digit_is_numeral (x : str) :
  forallb is_digit x = true -> forallb numeral_char x = true.
Proof.
  induction x as [|c x IH]; simpl; [easy|].
  intros H. apply andb_true_iff in H as [H1 H2].
  unfold numeral_char at 1. rewrite H1. simpl. auto.
Qed.

Lemma py_str_chars (i : Z) : forallb numeral_char (py_str i) = true.
Proof.
  unfold py_str. destruct i as [|p|p]; simpl Z.to_int; unfold NilZero.string_of_int.
  - reflexivity.
  - apply digit_is_numeral, uint_zero_chars.
  - simpl. apply digit_is_numeral, uint_zero_chars.
Qed.

Lemma py_str_nonempty (i : Z) : nonempty (py_str i) = true.
Proof.
  unfold py_str. destruct i as [|p|p]; simpl Z.to_int; unfold NilZero.string_of_int;
    try reflexivity.
  destruct (Pos.to_uint p); reflexivity.
Qed.

(** The numeral of a non-negative integer starts with a digit. *)
Lemma py_str_nonneg_digits (i : Z) :
  (0 <= i)%Z -> forallb is_digit (py_str i) = true.
Proof.
  intros Hi. unfold py_str. destruct i as [|p|p]; simpl Z.to_int;
    unfold NilZero.string_of_int; try lia.
  - reflexivity.
  - apply uint_zero_chars.
Qed.

Lemma digit_not_sign (c : ascii) : is_digit c = true -> is_sign c = false.
Proof.
  destruct c as [[] [] [] [] [] [] [] []]; vm_compute; congruence.
Qed.

(** *** [zfill] *)

Lemma zfill_long (x : str) (width : Z) : (width <= len x)%Z -> zfill x width = x.
Proof. intros H. unfold zfill. apply Z.leb_le in H. now rewrite H. Qed.

(** On a string that does not start with a sign, [zfill] pads on the left. *)
Lemma zfill_unsigned (x : str) (width : Z) :
  match x with c :: _ => is_sign c = false | [] => True end ->
  zfill x width = repeat "0"%char (Z.to_nat (width - len x)) ++ x.
Proof.
  intros Hx. unfold zfill. destruct (width <=? len x)%Z eqn:E.
  - apply Z.leb_le in E. replace (Z.to_nat (width - len x)) with 0 by lia. reflexivity.
  - destruct x as [|c rest]; [now rewrite app_nil_r|]. now rewrite Hx.
Qed.

Lemma zfill_signed (c : ascii) (rest : str) (width : Z) :
  is_sign c = true ->
  zfill (c :: rest) width =
  c :: repeat "0"%char (Z.to_nat (width - len (c :: rest))) ++ rest.
Proof.
  intros Hc. unfold zfill. destruct (width <=? len (c :: rest))%Z eqn:E.
  - apply Z.leb_le in E. replace (Z.to_nat (width - len (c :: rest))) with 0 by lia.
    reflexivity.
  - now rewrite Hc.
Qed.

Lemma len_app (x y : str) : len (x ++ y) = (len x + len y)%Z.
Proof. unfold len. rewrite length_app. lia. Qed.

Lemma len_repeat (c : ascii) (n : nat) : len (repeat c n) = Z.of_nat n.
Proof. unfold len. now rewrite repeat_length. Qed.

Lemma len_cons (c : ascii) (x : str) : len (c :: x) = (1 + len x)%Z.
Proof. unfold len. simpl length. lia. Qed.

Lemma len_zfill (x : str) (width : Z) : len (zfill x width) = Z.max (len x) width.
Proof.
  pose proof (len_nonneg x) as Hx.
  destruct x as [|c rest].
  - rewrite zfill_unsigned by exact I. rewrite app_nil_r, len_repeat.
    change (len []) with 0%Z. lia.
  - destruct (is_sign c) eqn:Hc.
    + rewrite zfill_signed by assumption.
      rewrite len_cons, len_app, len_repeat, len_cons. rewrite len_cons in Hx.
      pose proof (len_nonneg rest). lia.
    + rewrite zfill_unsigned by assumption. rewrite len_app, len_repeat. lia.
Qed.

(** Filling twice is filling once to the larger width. *)
Lemma zfill_zfill (x : str) (a b : Z) :
  zfill (zfill x a) b = zfill x (Z.max a b).
Proof.
  pose proof (len_nonneg x) as Hx.
  destruct x as [|c rest].
  - rewrite (zfill_unsigned [] a) by exact I. rewrite app_nil_r.
    rewrite (zfill_unsigned [] (Z.max a b)) by exact I. rewrite app_nil_r.
    rewrite zfill_unsigned.
    + rewrite len_repeat. change (len []) with 0%Z.
      rewrite <- repeat_app. f_equal. lia.
    + destruct (Z.to_nat (a - len [])); simpl; auto.
  - destruct (is_sign c) eqn:Hc.
    + rewrite (zfill_signed c rest a) by assumption.
      rewrite (zfill_signed c rest (Z.max a b)) by assumption.
      rewrite zfill_signed by assumption.
      rewrite !len_cons, len_app, len_repeat. rewrite len_cons in Hx.
      pose proof (len_nonneg rest).
      f_equal. rewrite app_assoc, <- repeat_app. f_equal. f_equal. lia.
    + rewrite (zfill_unsigned (c :: rest) a) by assumption.
      rewrite (zfill_unsigned (c :: rest) (Z.max a b)) by assumption.
      rewrite zfill_unsigned.
      * rewrite len_app, len_repeat. rewrite app_assoc, <- repeat_app.
        f_equal. f_equal. lia.
      * destruct (Z.to_nat (a - len (c :: rest))); simpl; auto.
Qed.

Lemma forallb_zfill (P : ascii -> bool) (x : str) (width : Z) :
  P "0"%char = true -> forallb P x = true -> forallb P (zfill x width) = true.
Proof.
  intros P0 Hx. unfold zfill. destruct (width <=? len x)%Z; [assumption|].
  assert (Hfill : forall n, forallb P (repeat "0"%char n) = true).
  { induction n; simpl; [reflexivity|]. now rewrite P0. }
  destruct x as [|c rest]; [apply Hfill|].
  simpl in Hx. apply andb_true_iff in Hx as [Hc Hrest].
  destruct (is_sign c).
  - simpl. rewrite Hc. simpl. rewrite forallb_app, Hfill, Hrest. reflexivity.
  - rewrite forallb_app, Hfill. simpl. now rewrite Hc, Hrest.
Qed.

Lemma zfill_nonempty (x : str) (width : Z) :
  nonempty x = true -> nonempty (zfill x width) = true.
Proof.
  intros Hx. unfold zfill. destruct (width <=? len x)%Z; [assumption|].
  destruct x as [|c rest]; [discriminate|].
  destruct (is_sign c); [reflexivity|].
  destruct (repeat _ _); reflexivity.
Qed.

(** ** The image number *)

Lemma maps_image_num_chars (width i : Z) :
  forallb numeral_char (LocMaps.image_num width i) = true.
Proof.
  unfold LocMaps.image_num. destruct (0 <? width)%Z.
  - apply forallb_zfill; [reflexivity|apply py_str_chars].
  - apply py_str_chars.
Qed.

Lemma sanborn_image_num_chars (pad : bool) (i : Z) :
  forallb numeral_char (LocSanborn.image_num pad i) = true.
Proof.
  unfold LocSanborn.image_num. destruct pad.
  - apply forallb_zfill; [reflexivity|apply py_str_chars].
  - apply py_str_chars.
Qed.

Lemma maps_image_num_nonempty (width i : Z) :
  nonempty (LocMaps.image_num width i) = true.
Proof.
  unfold LocMaps.image_num. destruct (0 <? width)%Z.
  - apply zfill_nonempty, py_str_nonempty.
  - apply py_str_nonempty.
Qed.

(** [loc_maps.py] with [zfill_width = w] computes the number
    [str(i).zfill(w)], for every [w]: a width of zero or less fills
    nothing. *)
Lemma maps_image_num_zfill (width i : Z) :
  LocMaps.image_num width i = zfill (py_str i) width.
Proof.
  unfold LocMaps.image_num. destruct (0 <? width)%Z eqn:E; [reflexivity|].
  apply Z.ltb_ge in E. symmetry. apply zfill_long.
  pose proof (len_nonneg (py_str i)). lia.
Qed.

Lemma pad_num_zfill (num : str) : LocMaps.pad_num num = zfill num 4.
Proof.
  unfold LocMaps.pad_num. destruct (len num <? 4)%Z eqn:E; [reflexivity|].
  apply Z.ltb_ge in E. symmetry. now apply zfill_long.
Qed.

Lemma last_snoc {A} (l : list A) (a d : A) : List.last (l ++ [a]) d = a.
Proof. apply last_last. Qed.

(** With a number, the image segments end with the padded number. *)
Lemma image_segments_snoc (ns : LocMaps.NameSegments) (part : option str) (num : str) :
  nonempty num = true ->
  exists front, LocMaps.image_segments ns part (Some num) = front ++ [LocMaps.pad_num num].
Proof.
  intros H. unfold LocMaps.image_segments. simpl (truthy_str (Some num)). rewrite H.
  eexists. reflexivity.
Qed.

(** ** Replacement templates *)

Lemma getuntil_shorter (term : ascii) (toks : list str) (result name : str)
      (rest : list str) :
  Re.getuntil term toks result = Some (name, rest) -> length rest < length toks.
Proof.
  revert result. induction toks as [|t toks IH]; intros result; simpl; [discriminate|].
  destruct (str_eqb t [term]).
  - destruct (nonempty result); [|discriminate]. intros [= _ <-]. lia.
  - intros H. apply IH in H. lia.
Qed.

(** The parser never runs out of fuel: every step consumes a token. *)
Lemma parse_tokens_fuel (ngroups : nat) (idx : list (str * nat)) (f1 f2 : nat)
      (toks : list str) (literal : str) :
  length toks < f1 -> length toks < f2 ->
  Re.parse_tokens ngroups idx f1 toks literal = Re.parse_tokens ngroups idx f2 toks literal.
Proof.
  revert f2 toks literal. induction f1 as [|f1 IH]; intros f2 toks literal H1 H2; [lia|].
  destruct f2 as [|f2]; [lia|]. simpl.
  repeat match goal with
         | |- ?x = ?x => reflexivity
         | |- context [Re.getuntil ?t ?l ?r] =>
             let E := fresh "E" in
             destruct (Re.getuntil t l r) as [[? ?]|] eqn:E;
             [apply getuntil_shorter in E|]
         | |- context [match ?x with _ => _ end] => destruct x eqn:?
         | |- context [if ?b then _ else _] => destruct b eqn:?
         end;
    simpl in *; try reflexivity;
    try (f_equal; apply IH; simpl in *; lia);
    try (apply IH; simpl in *; lia).
Qed.

(** ** [Pattern.sub] *)

Section Sub.
Variable p : Re.Pattern.
Variable text : str.

Lemma replace_matches_ext (f g : Re.Match -> str) (ms : list Re.Match) (i : nat) :
  (forall m, f m = g m) ->
  Re.replace_matches text i ms f = Re.replace_matches text i ms g.
Proof.
  intros E. revert i. induction ms as [|m ms IH]; intros i; simpl; [reflexivity|].
  now rewrite E, IH.
Qed.

(** The pieces the loop collects are the text with every match it
    finds replaced. *)
Lemma sub_loop_replace (filter : list Re.TemplateItem) (fuel pos : nat) (adv : bool)
      (i : nat) (pieces : list str) :
  concat (Re.sub_loop p filter text fuel pos adv i pieces) =
  concat pieces ++
  Re.replace_matches text i (Re.finditer p text fuel pos adv) (Re.expand filter text).
Proof.
  revert pos adv i pieces. induction fuel as [|fuel IH]; intros pos adv i pieces; simpl.
  - rewrite concat_app. simpl. now rewrite app_nil_r.
  - destruct (Re.search p text pos adv) as [m|].
    + rewrite IH, concat_app. simpl. rewrite app_nil_r, <- !app_assoc. reflexivity.
    + rewrite concat_app. simpl. now rewrite app_nil_r.
Qed.

Lemma sub_replace_matches (repl : str) :
  Re.sub p repl text =
  option_map
    (fun filter => Re.replace_matches text 0 (Re.matches p text) (Re.expand filter text))
    (Re.compile_template p repl).
Proof.
  unfold Re.sub. destruct (Re.compile_template p repl) as [filter|]; [|reflexivity].
  simpl. f_equal. apply sub_loop_replace.
Qed.


(** *** The fuel is enough for a well-behaved engine *)

Hypothesis engine : Re.well_behaved p.

Lemma finditer_stable (fuel fuel' pos : nat) (adv : bool) :
  pos <= length text ->
  Re.searches_left text pos adv < fuel ->
  Re.searches_left text pos adv < fuel' ->
  Re.finditer p text fuel pos adv = Re.finditer p text fuel' pos adv.
Proof.
  revert fuel' pos adv. induction fuel as [|fuel IH]; intros fuel' pos adv Hpos H1 H2;
    [lia|].
  destruct fuel' as [|fuel']; [lia|]. simpl.
  destruct (Re.search p text pos adv) as [m|] eqn:E; [|reflexivity].
  destruct (engine text pos adv m Hpos E) as (Hb & Hbe & He & Hadv).
  f_equal. unfold Re.searches_left in *.
  assert (Hlt : 2 * (length text - Re.m_end m)
                + (if Re.m_end m =? Re.m_start m then 0 else 1)
                < 2 * (length text - pos) + (if adv then 0 else 1)).
  { destruct (Re.m_end m =? Re.m_start m) eqn:Eq.
    - apply Nat.eqb_eq in Eq. destruct adv.
      + specialize (Hadv eq_refl). lia.
      + lia.
    - apply Nat.eqb_neq in Eq. destruct adv.
      + specialize (Hadv eq_refl). lia.
      + lia. }
  apply IH; lia.
Qed.

(** More searches than [sub_fuel] allows find no further match. *)
Lemma matches_complete (extra : nat) :
  Re.finditer p text (Re.sub_fuel text + extra) 0 false = Re.matches p text.
Proof.
  unfold Re.matches. apply finditer_stable; unfold Re.searches_left, Re.sub_fuel; lia.
Qed.
End Sub.

(** *** The engine for ordinary characters is well behaved *)

Lemma starts_with_length (pat x : str) :
  starts_with pat x = true -> length pat <= length x.
Proof.
  revert x. induction pat as [|c pat IH]; intros [|d x]; simpl; try lia; try discriminate.
  intros H. apply andb_true_iff in H as [_ H]. apply IH in H. lia.
Qed.

Lemma literal_scan_span (pat rest : str) (b : nat) (skip : bool) (b' : nat) :
  Re.literal_scan pat rest b skip = Some b' ->
  b <= b' /\ b' + length pat <= b + length rest /\
  (skip = true -> b < b' + length pat).
Proof.
  revert b skip. induction rest as [|c rest IH]; intros b skip; simpl.
  - destruct (starts_with pat [] && negb (skip && negb (nonempty pat))) eqn:E;
      [|discriminate].
    intros [= <-]. apply andb_true_iff in E as [E1 E2].
    apply starts_with_length in E1. simpl in E1.
    split; [lia|]. split; [lia|]. intros ->. destruct pat; [discriminate|simpl in *; lia].
  - destruct (starts_with pat (c :: rest) && negb (skip && negb (nonempty pat))) eqn:E.
    + intros [= <-]. apply andb_true_iff in E as [E1 E2].
      apply starts_with_length in E1. simpl in E1.
      split; [lia|]. split; [lia|]. intros ->. destruct pat; [discriminate|simpl; lia].
    + intros H. apply IH in H as (H1 & H2 & _). lia.
Qed.

Lemma literal_well_behaved (pat : str) : Re.well_behaved (Re.literal pat).
Proof.
  intros text pos adv m Hpos. simpl. unfold Re.literal_search.
  destruct (length text <? pos) eqn:E; [discriminate|].
  destruct (Re.literal_scan pat (drop pos text) pos adv) as [b|] eqn:Es; [|discriminate].
  intros [= <-]. simpl.
  apply literal_scan_span in Es as (H1 & H2 & H3).
  rewrite length_drop in H2. repeat split; try lia. exact H3.
Qed.

(** ** The resource URL *)

Lemma numeral_not_char (c : ascii) (x : str) :
  numeral_char c = false -> forallb numeral_char x = true -> mem_char c x = false.
Proof.
  intros Hc. induction x as [|d x IH]; simpl; [reflexivity|].
  intros H. apply andb_true_iff in H as [Hd Hx]. rewrite (IH Hx), orb_false_r.
  destruct (ascii_eqb c d) eqn:E; [|reflexivity].
  apply ascii_eqb_eq in E. congruence.
Qed.

(** A replacement without a backslash is taken literally. *)
Lemma compile_template_literal (p : Re.Pattern) (prefix num : str) :
  mem_char Re.backslash prefix = false ->
  forallb numeral_char num = true ->
  Re.compile_template p (prefix ++ num) = Some [Re.TLit (prefix ++ num)].
Proof.
  intros Hp Hn. unfold Re.compile_template.
  rewrite mem_char_app, Hp, (numeral_not_char Re.backslash num); auto.
Qed.

Lemma expand_literal (r text : str) (m : Re.Match) :
  Re.expand [Re.TLit r] text m = r.
Proof. unfold Re.expand. simpl. apply app_nil_r. Qed.

Lemma sub_literal (p : Re.Pattern) (prefix num text : str) :
  mem_char Re.backslash prefix = false ->
  forallb numeral_char num = true ->
  Re.sub p (prefix ++ num) text =
  Some (Re.replace_matches text 0 (Re.matches p text) (fun _ => prefix ++ num)).
Proof.
  intros Hp Hn. rewrite sub_replace_matches, compile_template_literal by assumption.
  simpl. f_equal. apply replace_matches_ext. intros m. apply expand_literal.
Qed.

Lemma maps_resource_url_literal (host : str) (path : LocMaps.PathConfig) (i : Z) :
  mem_char Re.backslash (LocMaps.prefix path) = false ->
  LocMaps.resource_url host path i =
  Some (host ++ Re.replace_matches (LocMaps.default_path path) 0
                  (Re.matches (LocMaps.regex path) (LocMaps.default_path path))
                  (fun _ => LocMaps.replacement path i)).
Proof.
  intros Hp. unfold LocMaps.resource_url, LocMaps.replacement.
  rewrite sub_literal; auto using maps_image_num_chars.
Qed.

Lemma sanborn_resource_url_literal (host : str) (path : LocSanborn.PathConfig) (i : Z) :
  mem_char Re.backslash (LocSanborn.prefix path) = false ->
  LocSanborn.resource_url host path i =
  Some (host ++ Re.replace_matches (LocSanborn.default_path path) 0
                  (Re.matches (LocSanborn.regex path) (LocSanborn.default_path path))
                  (fun _ => LocSanborn.replacement path i)).
Proof.
  intros Hp. unfold LocSanborn.resource_url, LocSanborn.replacement.
  rewrite sub_literal; auto using sanborn_image_num_chars.
Qed.

(** ** File names *)

Lemma join_snoc (sep : str) (front : list str) (x : str) :
  exists pre, join sep (front ++ [x]) = pre ++ x.
Proof.
  induction front as [|y front IH]; simpl.
  - now exists [].
  - destruct IH as [pre E]. destruct (front ++ [x]) eqn:F.
    + destruct front; discriminate.
    + rewrite E. exists (y ++ sep ++ pre). now rewrite <- !app_assoc.
Qed.

(** A text that ends with a piece free of separators: its last
    component ends with that piece. *)
Lemma split_app_tail (sep : ascii) (pre tail : str) :
  mem_char sep tail = false ->
  exists front w, split sep (pre ++ tail) = front ++ [w ++ tail].
Proof.
  intros Ht. induction pre as [|c pre IH]; simpl.
  - exists [], []. simpl. induction tail as [|d tail IHt]; [reflexivity|].
    simpl in Ht. apply orb_false_iff in Ht as [Hd Ht]. simpl.
    unfold ascii_eqb in *. rewrite Ascii.eqb_sym, Hd. now rewrite (IHt Ht).
  - destruct IH as (front & w & E). rewrite E.
    destruct (ascii_eqb c sep).
    + exists ([] :: front), w. reflexivity.
    + destruct front as [|f front]; simpl.
      * exists [], (c :: w). reflexivity.
      * exists ((c :: f) :: front), w. reflexivity.
Qed.

Lemma lstrip_app_tail (pre tail : str) :
  match tail with c :: _ => ascii_eqb c PathLib.sep = false | [] => False end ->
  exists pre', PathLib.lstrip_sep (pre ++ tail) = pre' ++ tail.
Proof.
  intros Ht. induction pre as [|c pre IH]; simpl.
  - exists []. destruct tail as [|d tail]; [easy|]. simpl. now rewrite Ht.
  - destruct (ascii_eqb c PathLib.sep); [exact IH|]. now exists (c :: pre).
Qed.

Lemma numeral_head (x : str) :
  nonempty x = true -> forallb numeral_char x = true ->
  exists c rest, x = c :: rest /\ numeral_char c = true.
Proof.
  destruct x as [|c rest]; [discriminate|]. intros _ H. simpl in H.
  apply andb_true_iff in H as [H _]. eauto.
Qed.

Lemma numeral_char_neq (c d : ascii) :
  numeral_char c = true -> numeral_char d = false -> ascii_eqb c d = false.
Proof.
  intros Hc Hd. destruct (ascii_eqb c d) eqn:E; [|reflexivity].
  apply ascii_eqb_eq in E. congruence.
Qed.

(** A name that ends with a numeral is a path with a non-empty name. *)
Lemma name_of_numeral_tail (pre num : str) :
  nonempty num = true -> forallb numeral_char num = true ->
  nonempty (PathLib.name (PathLib.of_strs [pre ++ num])) = true.
Proof.
  intros Hne Hnum.
  destruct (numeral_head num Hne Hnum) as (c & rest & -> & Hc).
  assert (Hsep : mem_char PathLib.sep (c :: rest) = false)
    by (apply numeral_not_char; [reflexivity|assumption]).
  assert (Hcomp : forall pre', nonempty (List.last
            (PathLib.components (pre' ++ c :: rest)) []) = true).
  { intros pre'. unfold PathLib.components.
    destruct (split_app_tail PathLib.sep pre' (c :: rest) Hsep) as (front & w & ->).
    rewrite List.filter_app. simpl.
    assert (K : PathLib.keep_component (w ++ c :: rest) = true).
    { unfold PathLib.keep_component. destruct w as [|d w]; simpl.
      - rewrite (numeral_char_neq c "."%char Hc eq_refl). reflexivity.
      - destruct (w ++ c :: rest) eqn:F; [destruct w; discriminate|].
        now rewrite andb_false_r. }
    rewrite K, last_last. destruct w; reflexivity. }
  unfold PathLib.of_strs, PathLib.name. simpl rev.
  cbn [PathLib.parse_parts_rev].
  destruct (nonempty (pre ++ c :: rest)) eqn:N; [|destruct pre; discriminate].
  unfold PathLib.splitroot.
  destruct (pre ++ c :: rest) as [|h t] eqn:J; [discriminate|]. rewrite <- J.
  destruct (ascii_eqb h PathLib.sep) eqn:Hh.
  - destruct (lstrip_app_tail pre (c :: rest)) as [pre' ->].
    { apply numeral_char_neq; [assumption|reflexivity]. }
    destruct (_ =? 2); simpl; apply Hcomp.
  - simpl. apply Hcomp.
Qed.

Lemma create_filename_image (ns : LocMaps.NameSegments) (part : option str) (num : str) :
  nonempty num = true -> forallb numeral_char num = true ->
  exists filename,
    LocMaps.create_filename ns part (Some num) (lit ".jpg") = Some filename.
Proof.
  intros Hne Hnum. unfold LocMaps.create_filename.
  change (str_eqb (lit ".jpg") (lit ".log")) with false. cbv iota.
  destruct (image_segments_snoc ns part num Hne) as [front ->].
  destruct (join_snoc (lit "-") front (LocMaps.pad_num num)) as [pre ->].
  unfold PathLib.with_suffix.
  change (mem_char PathLib.sep (lit ".jpg")) with false.
  change ((nonempty (lit ".jpg") && negb (PathLib.starts_with_dot (lit ".jpg")))
          || str_eqb (lit ".jpg") (lit ".")) with false.
  cbv iota. rewrite name_of_numeral_tail; [eauto| |].
  - rewrite pad_num_zfill. now apply zfill_nonempty.
  - rewrite pad_num_zfill. now apply forallb_zfill.
Qed.

(** ** Reading a numeral back *)

Lemma uint_value_zeros (k : nat) (x : str) :
  uint_value (repeat "0"%char k ++ x) = option_map (Nat.iter k Decimal.D0) (uint_value x).
Proof.
  unfold uint_value. induction k as [|k IH]; simpl.
  - now destruct (NilEmpty.uint_of_string _).
  - rewrite IH. now destruct (NilEmpty.uint_of_string (string_of_list_ascii x)).
Qed.

Lemma uint_value_digits (d : Decimal.uint) :
  uint_value (list_ascii_of_string (NilEmpty.string_of_uint d)) = Some d.
Proof. unfold uint_value. rewrite string_of_list_ascii_of_string. apply NilEmpty.usu. Qed.

Lemma of_uint_zeros (k : nat) (d : Decimal.uint) :
  Z.of_uint (Nat.iter k Decimal.D0 d) = Z.of_uint d.
Proof. induction k as [|k IH]; simpl; [reflexivity|]. exact IH. Qed.

Lemma of_uint_pos (p : positive) : Z.of_uint (Pos.to_uint p) = Z.pos p.
Proof. unfold Z.of_uint. now rewrite Unsigned.of_to. Qed.

Lemma py_str_pos (p : positive) :
  py_str (Z.pos p) = list_ascii_of_string (NilEmpty.string_of_uint (Pos.to_uint p)).
Proof.
  unfold py_str. simpl. pose proof (Unsigned.to_uint_nonnil p).
  destruct (Pos.to_uint p); [congruence|..]; reflexivity.
Qed.

Lemma py_str_neg (p : positive) : py_str (Z.neg p) = "-"%char :: py_str (Z.pos p).
Proof. reflexivity. Qed.

(** Zeros in front of digits do not change the value. *)
Lemma int_value_zeros (k : nat) (x : str) (d : Decimal.uint) :
  nonempty x = true -> forallb is_digit x = true -> uint_value x = Some d ->
  int_value (repeat "0"%char k ++ x) = Some (Z.of_uint d).
Proof.
  intros Hne Hd Hv. pose proof (uint_value_zeros k x) as Hz. rewrite Hv in Hz. simpl in Hz.
  unfold int_value. destruct (repeat "0"%char k ++ x) as [|c rest] eqn:E.
  - destruct k; [destruct x|]; discriminate.
  - assert (Hc : ascii_eqb c "-"%char = false).
    { destruct k as [|k]; simpl in E.
      - subst x. simpl in Hd. apply andb_true_iff in Hd as [Hc _].
        destruct (ascii_eqb c "-"%char) eqn:F; [|reflexivity].
        apply ascii_eqb_eq in F. subst c. discriminate.
      - injection E as <- _. reflexivity. }
    rewrite Hc, Hz. simpl. now rewrite of_uint_zeros.
Qed.

Lemma int_value_zfill (i width : Z) : int_value (zfill (py_str i) width) = Some i.
Proof.
  destruct i as [|p|p].
  - rewrite zfill_unsigned by reflexivity.
    apply (int_value_zeros _ (py_str 0) (Decimal.D0 Decimal.Nil)); reflexivity.
  - rewrite zfill_unsigned.
    + rewrite (int_value_zeros _ _ (Pos.to_uint p)).
      * now rewrite of_uint_pos.
      * apply py_str_nonempty.
      * apply py_str_nonneg_digits. lia.
      * rewrite py_str_pos. apply uint_value_digits.
    + pose proof (py_str_nonneg_digits (Z.pos p) ltac:(lia)) as Hd.
      destruct (py_str (Z.pos p)) as [|c rest]; [exact I|].
      simpl in Hd. apply andb_true_iff in Hd as [Hc _]. now apply digit_not_sign.
  - rewrite py_str_neg, zfill_signed by reflexivity.
    unfold int_value. change (ascii_eqb "-"%char "-"%char) with true. cbv iota.
    rewrite uint_value_zeros, py_str_pos, uint_value_digits. simpl.
    now rewrite of_uint_zeros, of_uint_pos.
Qed.

(** At one width, distinct integers have distinct zero-filled numerals. *)
Lemma zfill_py_str_inj (i j width : Z) :
  zfill (py_str i) width = zfill (py_str j) width -> i = j.
Proof.
  intros E. pose proof (int_value_zfill i width) as Hi.
  rewrite E, int_value_zfill in Hi. congruence.
Qed.

(** ** Injectivity *)

Lemma sanborn_numeral (pad : bool) (i : Z) :
  (if (len (LocSanborn.image_num pad i) <? 4)%Z
   then zfill (LocSanborn.image_num pad i) 4 else LocSanborn.image_num pad i)
  = zfill (py_str i) 4.
Proof.
  transitivity (zfill (LocSanborn.image_num pad i) 4).
  - destruct (len _ <? 4)%Z eqn:E; [reflexivity|].
    apply Z.ltb_ge in E. symmetry. now apply zfill_long.
  - unfold LocSanborn.image_num. destruct pad; [apply zfill_zfill|reflexivity].
Qed.

(** The file names of [loc_sanborn_maps.py] are distinct for distinct
    indices of a group. *)
Lemma sanborn_create_filename_inj (m : LocSanborn.Municipality) (part : option str)
      (pad : bool) (i j : Z) :
  LocSanborn.create_filename m (LocSanborn.image_num pad i) part =
  LocSanborn.create_filename m (LocSanborn.image_num pad j) part ->
  i = j.
Proof.
  unfold LocSanborn.create_filename. rewrite !sanborn_numeral.
  intros E. apply app_inv_head in E. apply app_inv_head in E.
  apply app_inv_tail in E. now apply zfill_py_str_inj in E.
Qed.

Lemma join_snoc_prefix (sep : str) (front : list str) (x : str) :
  join sep (front ++ [x]) = concat (map (fun y => y ++ sep) front) ++ x.
Proof.
  induction front as [|y front IH]; simpl; [reflexivity|].
  rewrite IH. destruct (front ++ [x]) eqn:F; [destruct front; discriminate|].
  now rewrite <- !app_assoc.
Qed.

Lemma image_segments_num (ns : LocMaps.NameSegments) (part : option str) (num : str) :
  nonempty num = true ->
  LocMaps.image_segments ns part (Some num) =
  LocMaps.image_segments ns part None ++ [LocMaps.pad_num num].
Proof.
  intros H. unfold LocMaps.image_segments. simpl (truthy_str (Some num)). rewrite H.
  reflexivity.
Qed.

(** In [loc_maps.py] the joined segments are distinct for distinct
    indices; it is [with_suffix] that can make the file names equal. *)
Lemma maps_joined_segments_inj (ns : LocMaps.NameSegments) (part : option str)
      (width i j : Z) :
  join (lit "-") (LocMaps.image_segments ns part (Some (LocMaps.image_num width i))) =
  join (lit "-") (LocMaps.image_segments ns part (Some (LocMaps.image_num width j))) ->
  i = j.
Proof.
  rewrite !image_segments_num by apply maps_image_num_nonempty.
  rewrite !join_snoc_prefix, !pad_num_zfill, !maps_image_num_zfill, !zfill_zfill.
  intros E. apply app_inv_head in E. now apply zfill_py_str_inj in E.
Qed.

(** ** Loops *)

Lemma for_each_ext {A} (l : list A) (f g : A -> M unit) (st : State) :
  (forall x st', f x st' = g x st') -> for_each l f st = for_each l g st.
Proof.
  intros E. revert st. induction l as [|a l IH]; intros st; simpl; [reflexivity|].
  unfold bind. rewrite E. destruct (g a st) as [st' [e|[]]]; [reflexivity|apply IH].
Qed.




(** ** A batch: one request and one stored file per item *)

Section Batch.
Context {A : Type}.
Variable w : World.
Variable body : A -> M unit.
Variable url_of : A -> option str.
Variable target : A -> str.
Variable shown : A -> str.

(** What one turn of the inner loop does, in both scripts. *)
Hypothesis body_turn : forall x st,
  body x st =
  match url_of x with
  | None => (st, inl ReError)
  | Some url =>
      match http_get w (length (requests st)) url with
      | None => (sent url st, inl (RequestException url))
      | Some r =>
          (logged INFO (snd (renamed (shown x)))
             (stored (target x) (content r) (sent url st)), inr tt)
      end
  end.

Lemma fetch_all_app (n : nat) (l1 l2 : list A) :
  fetch_all w url_of n (l1 ++ l2) =
  match fetch_all w url_of n l1 with
  | Some rs1 => option_map (app rs1) (fetch_all w url_of (n + length l1) l2)
  | None => None
  end.
Proof.
  revert n. induction l1 as [|x l1 IH]; intros n; simpl.
  - rewrite Nat.add_0_r. destruct (fetch_all w url_of n l2); reflexivity.
  - destruct (url_of x) as [url|]; [|reflexivity].
    destruct (http_get w n url) as [r|]; [|reflexivity].
    rewrite IH. replace (S n + length l1) with (n + S (length l1)) by lia.
    destruct (fetch_all w url_of (S n) l1) as [rs1|]; [|reflexivity]. simpl.
    destruct (fetch_all w url_of (n + S (length l1)) l2); reflexivity.
Qed.


End Batch.

(** ** One turn of the inner loop *)



(** ** [main] as one loop over the work items *)



(** ** [range] *)



(** ** Records of the log *)

Lemma renamed_not_end (shown : str) : is_end_record (renamed shown) = false.
Proof. reflexivity. Qed.

Lemma renamed_not_error (shown : str) : is_error_record (renamed shown) = false.
Proof. reflexivity. Qed.


(** ** The run *)





(** ** The scenarios of the specification *)

(** The sample group resolves the indices 1 and 2 to the URLs of the
    end-to-end scenario, in both scripts. *)
Example sample_urls :
  map (LocMaps.resource_url Sample.host Sample.group) [1%Z; 2%Z] =
    [Some (lit "https://example.org/img/p0001.jpg");
     Some (lit "https://example.org/img/p0002.jpg")] /\
  map (LocSanborn.resource_url Sample.host Sample.sanborn_group) [1%Z; 2%Z] =
    [Some (lit "https://example.org/img/p0001.jpg");
     Some (lit "https://example.org/img/p0002.jpg")].
Proof. vm_compute. split; reflexivity. Qed.

(** Without a volume the file name of index 7 has no volume segment. *)
Example sample_filename :
  option_map PathLib.to_str
    (LocMaps.create_filename Sample.naming None (Some (lit "7")) (lit ".jpg"))
  = Some (lit "Sanborn-LOC-Springfield-IL-1925-0007.jpg") /\
  LocSanborn.create_filename Sample.municipality (lit "7") None
  = lit "Sanborn-LOC-Springfield-IL-1925-0007.jpg".
Proof. vm_compute. split; reflexivity. Qed.

(** The two scripts send the same requests for the sample job and log
    the same records. *)
Example sample_runs_agree :
  let maps := fst (LocMaps.main (Sample.answering 200) Sample.host Sample.job
                                Sample.out initial) in
  let sanborn := fst (LocSanborn.main (Sample.answering 200) Sample.host
                                      Sample.municipality Sample.out initial) in
  requests maps = requests sanborn /\ log maps = log sanborn /\ length (log maps) = 5.
Proof. vm_compute. repeat split. Qed.

(** * The claims *)

(** ** C1: a failed fetch *)




(** ** C2: the response is stored whatever its status *)



(** ** C3: the segments of an image file name *)

(** With a volume, [create_filename] of [loc_maps.py] appends the volume
    segment twice: once before the test for a log file name and once
    after it. *)
Lemma image_segments_volume (ns : LocMaps.NameSegments) (part num : option str) :
  truthy_str (LocMaps.vol ns) = true ->
  LocMaps.image_segments ns part num =
  (LocMaps.name ns
   ++ (if truthy_int (LocMaps.year ns) then [fmt_int (LocMaps.year ns)] else []))
  ++ [LocMaps.vol_segment ns; LocMaps.vol_segment ns]
  ++ (if truthy_str part then [fmt_str part] else [])
  ++ (if truthy_str num then [LocMaps.pad_num (fmt_str num)] else []).
Proof.
  intros Hvol. unfold LocMaps.image_segments, LocMaps.log_segments. rewrite Hvol.
  destruct (truthy_int (LocMaps.year ns)), (truthy_str part), (truthy_str num);
    rewrite <- ?app_assoc; simpl; rewrite ?app_nil_r; reflexivity.
Qed.

(** C3, the code at the failing input.  For the Springfield volume 2 of
    1925 and the number 0007, [create_filename] of [loc_maps.py] returns
    a name with the segment [vol_2] twice, where the claim has it
    exactly once; the log file name of the same script and the image
    file name of [loc_sanborn_maps.py] have it once. *)
Theorem create_filename_repeats_volume :
  let ns := LocMaps.mkNameSegments [lit "Sanborn-LOC"; lit "Springfield"; lit "IL"]
                                   (Some 1925%Z) (Some (lit "2")) in
  let m := LocSanborn.mkMunicipality (lit "Springfield") (lit "IL") (Some 1925%Z)
                                     (Some (lit "2")) (lit "jpg") [] in
  option_map PathLib.to_str
    (LocMaps.create_filename ns None (Some (lit "0007")) (lit ".jpg"))
  = Some (lit "Sanborn-LOC-Springfield-IL-1925-vol_2-vol_2-0007.jpg") /\
  option_map PathLib.to_str (LocMaps.create_filename ns None None (lit ".log"))
  = Some (lit "Sanborn-LOC-Springfield-IL-1925-vol_2.log") /\
  LocSanborn.create_filename m (lit "0007") None
  = lit "Sanborn-LOC-Springfield-IL-1925-vol_2-0007.jpg".
Proof. vm_compute. repeat split. Qed.

(** ** C4: the numeral of an image file name *)



(** ** C5: the replacement token *)

(** C5.  For every non-negative index [i], every [zfill_width] and every
    prefix, the replacement is the prefix followed by a numeral at least
    [zfill_width] long; the numeral is [str(i)] with zeros on its left
    when [str(i)] is shorter than [zfill_width], and [str(i)] itself
    otherwise. *)
Theorem replacement_token_numeral (path : LocMaps.PathConfig) (i : Z) :
  (0 <= i)%Z ->
  let width := LocMaps.zfill_width (LocMaps.index path) in
  let num := LocMaps.image_num width i in
  LocMaps.replacement path i = LocMaps.prefix path ++ num /\
  (width <= len num)%Z /\
  ((len (py_str i) < width)%Z ->
   num = repeat "0"%char (Z.to_nat (width - len (py_str i))) ++ py_str i) /\
  ((width <= len (py_str i))%Z -> num = py_str i).
Proof.
  intros Hi width num. subst num. rewrite maps_image_num_zfill.
  split; [unfold LocMaps.replacement; now rewrite maps_image_num_zfill|].
  split; [rewrite len_zfill; lia|].
  split.
  - intros _. apply zfill_unsigned.
    pose proof (py_str_nonneg_digits i Hi) as Hd.
    destruct (py_str i) as [|c rest]; [exact I|].
    simpl in Hd. apply andb_true_iff in Hd as [Hc _]. now apply digit_not_sign.
  - apply zfill_long.
Qed.

Lemma replacement_token_numeral_witness :
  (0 <= 7)%Z /\ LocMaps.replacement Sample.group 7 = lit "p0007".
Proof.
  split; [lia|].
  destruct (replacement_token_numeral Sample.group 7 ltac:(lia)) as (H & _).
  rewrite H. reflexivity.
Defined.

(** ** C6: a pattern that matches nothing *)




(** ** C7: a pattern that matches more than once *)

(** C7, counterexample.  The pattern [_N] matches twice in
    [/a_N/b_N.jpg]; both matches are replaced, where the claim leaves
    the second one as it is. *)
Lemma second_match_replaced :
  let path := LocMaps.mkPathConfig (lit "p") None (lit "/a_N/b_N.jpg")
                (Re.literal (lit "_N")) (LocMaps.mkIndex 1 3 4) in
  length (Re.matches (LocMaps.regex path) (LocMaps.default_path path)) = 2 /\
  LocMaps.resource_url (lit "h") path 1 = Some (lit "h/ap0001/bp0001.jpg") /\
  LocMaps.resource_url (lit "h") path 1 <>
  Some (lit "h" ++ Re.spec_replace_first (LocMaps.regex path)
                     (LocMaps.replacement path 1) (LocMaps.default_path path)).
Proof. vm_compute. repeat split; discriminate. Qed.

(** C7, amended.  In both scripts, for every group whose prefix contains
    no backslash, every match of the pattern in the default path, found
    from left to right without overlap, is replaced by the replacement
    token; the text between the matches is kept. *)
Theorem every_match_replaced (host prefix default_path : str) (part : option str)
        (regex : Re.Pattern) (start stop zfill_width : Z) (pad : bool) (i : Z) :
  mem_char Re.backslash prefix = false ->
  LocMaps.resource_url host
    (LocMaps.mkPathConfig prefix part default_path regex
                          (LocMaps.mkIndex start stop zfill_width)) i
  = Some (host ++ Re.replace_matches default_path 0 (Re.matches regex default_path)
                    (fun _ => prefix ++ LocMaps.image_num zfill_width i)) /\
  LocSanborn.resource_url host
    (LocSanborn.mkPathConfig prefix part pad default_path regex start stop) i
  = Some (host ++ Re.replace_matches default_path 0 (Re.matches regex default_path)
                    (fun _ => prefix ++ LocSanborn.image_num pad i)).
Proof.
  intros Hp. split.
  - now rewrite maps_resource_url_literal.
  - now rewrite sanborn_resource_url_literal.
Qed.

Lemma every_match_replaced_witness :
  LocMaps.resource_url (lit "h")
    (LocMaps.mkPathConfig (lit "p") None (lit "/a_N/b_N.jpg") (Re.literal (lit "_N"))
                          (LocMaps.mkIndex 1 3 4)) 1
  = Some (lit "h/ap0001/bp0001.jpg").
Proof.
  apply (proj1 (every_match_replaced (lit "h") (lit "p") (lit "/a_N/b_N.jpg") None
                  (Re.literal (lit "_N")) 1 3 4 true 1 eq_refl)).
Defined.

(** ** C8: one fetch per pair, in order *)



(** ** C9: distinct indices, distinct names *)

(** C9, the code at the failing input.  For the naming of a St. Louis
    volume, [create_filename] of [loc_maps.py] returns the same name,
    [Sanborn-LOC-St.jpg], for the indices 1 and 2: [with_suffix] takes
    everything from the dot of [St. Louis] on for the old suffix and
    replaces it, numeral included.  A run over the indices 1, 2 and 3
    sends three requests and leaves one file. *)
Theorem create_filename_collision :
  let ns := LocMaps.mkNameSegments [lit "Sanborn-LOC"; lit "St. Louis"; lit "MO"]
                                   (Some 1909%Z) None in
  let job := LocMaps.mkMapConfig ns [Sample.group] in
  let st := fst (LocMaps.main (Sample.answering 200) Sample.host job Sample.out initial) in
  LocMaps.create_filename ns None (Some (LocMaps.image_num 4 1)) (lit ".jpg") =
  LocMaps.create_filename ns None (Some (LocMaps.image_num 4 2)) (lit ".jpg") /\
  option_map PathLib.to_str
    (LocMaps.create_filename ns None (Some (LocMaps.image_num 4 1)) (lit ".jpg"))
  = Some (lit "Sanborn-LOC-St.jpg") /\
  length (requests st) = 3 /\
  map fst (map_to_list (files st)) = [lit "/home/user/maps/Sanborn-LOC-St.jpg"].
Proof. vm_compute. repeat split. Qed.

(** ** C10: the two scripts resolve the same URLs *)

(** C10.  For every host, prefix, default path, pattern and index, the
    URL of [loc_sanborn_maps.py] with [pad_num] true is the URL of
    [loc_maps.py] with [zfill_width = 4], and with [pad_num] false it is
    the URL of [loc_maps.py] with [zfill_width = 0]; when [regex.sub]
    raises in one script it raises in the other. *)
Theorem url_pipelines_agree (host prefix default_path : str) (part : option str)
        (regex : Re.Pattern) (start stop i : Z) :
  LocSanborn.resource_url host
    (LocSanborn.mkPathConfig prefix part true default_path regex start stop) i =
  LocMaps.resource_url host
    (LocMaps.mkPathConfig prefix part default_path regex (LocMaps.mkIndex start stop 4)) i
  /\
  LocSanborn.resource_url host
    (LocSanborn.mkPathConfig prefix part false default_path regex start stop) i =
  LocMaps.resource_url host
    (LocMaps.mkPathConfig prefix part default_path regex (LocMaps.mkIndex start stop 0)) i.
Proof. split; reflexivity. Qed.

(** * Further lemmas *)

(** ** The image number, the token and the numeral of the file name *)

Lemma sanborn_image_num_zfill (pad : bool) (i : Z) :
  LocSanborn.image_num pad i = zfill (py_str i) (if pad then 4 else 0).
Proof.
  unfold LocSanborn.image_num. destruct pad; [reflexivity|].
  symmetry. apply zfill_long. apply len_nonneg.
Qed.

(** ** Plain names *)

Lemma plain_app (x y : str) : plain (x ++ y) = plain x && plain y.
Proof.
  unfold plain. rewrite !mem_char_app.
  destruct (mem_char "."%char x), (mem_char PathLib.sep x), (mem_char "."%char y),
    (mem_char PathLib.sep y); reflexivity.
Qed.

Lemma plain_join (l : list str) :
  forallb plain l = true -> plain (join (lit "-") l) = true.
Proof.
  induction l as [|x l IH]; [reflexivity|].
  intros H. cbn [forallb] in H. apply andb_true_iff in H as [Hx Hl].
  destruct l as [|y l]; [exact Hx|].
  change (join (lit "-") (x :: y :: l)) with (x ++ lit "-" ++ join (lit "-") (y :: l)).
  rewrite !plain_app, Hx, (IH Hl). reflexivity.
Qed.

Lemma plain_numeral (x : str) : forallb numeral_char x = true -> plain x = true.
Proof.
  intros H. unfold plain.
  rewrite (numeral_not_char "."%char x), (numeral_not_char PathLib.sep x); auto.
Qed.

Lemma mem_char_cons (c d : ascii) (x : str) :
  mem_char c (d :: x) = ascii_eqb c d || mem_char c x.
Proof. reflexivity. Qed.

Lemma ascii_eqb_sym (c d : ascii) : ascii_eqb c d = ascii_eqb d c.
Proof. apply Ascii.eqb_sym. Qed.

Lemma mem_char_cons_false (c d : ascii) (x : str) :
  mem_char c (d :: x) = false -> ascii_eqb d c = false /\ mem_char c x = false.
Proof.
  rewrite mem_char_cons, ascii_eqb_sym. apply orb_false_iff.
Qed.

Lemma split_plain (x : str) : mem_char PathLib.sep x = false -> split PathLib.sep x = [x].
Proof.
  induction x as [|c x IH]; [reflexivity|]. intros H.
  apply mem_char_cons_false in H as [Hc Hx].
  cbn [split]. rewrite Hc, (IH Hx). reflexivity.
Qed.

Lemma rfind_dot_none (x : str) : mem_char "."%char x = false -> PathLib.rfind_dot x = None.
Proof.
  induction x as [|c x IH]; [reflexivity|]. intros H.
  apply mem_char_cons_false in H as [Hc Hx].
  cbn [PathLib.rfind_dot]. now rewrite (IH Hx), Hc.
Qed.

Lemma plain_not_dot (x : str) : plain x = true -> str_eqb x (lit ".") = false.
Proof.
  unfold plain. destruct x as [|c x]; [reflexivity|]. intros H.
  apply andb_true_iff in H as [H _]. apply negb_true_iff in H.
  apply mem_char_cons_false in H as [Hc _].
  change (str_eqb (c :: x) (lit ".")) with (ascii_eqb c "."%char && str_eqb x []).
  now rewrite Hc.
Qed.

(** A plain name is a path of one component. *)
Lemma of_strs_plain (x : str) :
  nonempty x = true -> plain x = true -> PathLib.of_strs [x] = PathLib.mkPath [] [x].
Proof.
  intros Hne Hp. pose proof (plain_not_dot x Hp) as Hd.
  unfold plain in Hp. apply andb_true_iff in Hp as [_ Hs]. apply negb_true_iff in Hs.
  unfold PathLib.of_strs. simpl rev. cbn [PathLib.parse_parts_rev]. rewrite Hne.
  unfold PathLib.splitroot. destruct x as [|c x]; [discriminate|].
  pose proof (mem_char_cons_false _ _ _ Hs) as [Hc _].
  rewrite Hc. cbn [nonempty]. unfold PathLib.components.
  rewrite split_plain by assumption. cbn [List.filter]. unfold PathLib.keep_component.
  rewrite Hd. reflexivity.
Qed.

(** On a plain name [with_suffix] appends the suffix. *)
Lemma with_suffix_plain (x sfx : str) :
  nonempty x = true -> plain x = true -> extension_like sfx = true ->
  PathLib.with_suffix (PathLib.mkPath [] [x]) sfx = Some (PathLib.mkPath [] [x ++ sfx]).
Proof.
  intros Hne Hp Hs. unfold extension_like in Hs.
  apply andb_true_iff in Hs as [Hs Hdot]. apply andb_true_iff in Hs as [Hstart Hsep].
  apply negb_true_iff in Hsep, Hdot.
  unfold plain in Hp. apply andb_true_iff in Hp as [Hp _]. apply negb_true_iff in Hp.
  unfold PathLib.with_suffix. rewrite Hsep, Hstart, Hdot. simpl negb.
  rewrite andb_false_r. simpl orb. cbv iota.
  unfold PathLib.suffix, PathLib.name. simpl List.last. rewrite Hne.
  rewrite rfind_dot_none by assumption. reflexivity.
Qed.

Lemma to_str_single (x : str) :
  nonempty x = true -> PathLib.to_str (PathLib.mkPath [] [x]) = x.
Proof. intros H. unfold PathLib.to_str. simpl. now rewrite H. Qed.

Lemma nonempty_app_l (x y : str) : nonempty x = true -> nonempty (x ++ y) = true.
Proof. destruct x; [discriminate|reflexivity]. Qed.

Lemma maps_image_name_plain (ns : LocMaps.NameSegments) (part num : option str) :
  let j := join (lit "-") (LocMaps.image_segments ns part num) in
  nonempty j = true -> plain j = true ->
  LocMaps.create_filename ns part num (lit ".jpg")
  = Some (PathLib.mkPath [] [j ++ lit ".jpg"]).
Proof.
  intros j Hne Hp. unfold LocMaps.create_filename.
  change (str_eqb (lit ".jpg") (lit ".log")) with false. cbv iota. fold j.
  now rewrite of_strs_plain, with_suffix_plain by (assumption || reflexivity).
Qed.

Lemma maps_log_name_plain (ns : LocMaps.NameSegments) (part num : option str) :
  let j := join (lit "-") (LocMaps.log_segments ns) in
  nonempty j = true -> plain j = true ->
  LocMaps.create_filename ns part num (lit ".log")
  = Some (PathLib.mkPath [] [j ++ lit ".log"]).
Proof.
  intros j Hne Hp. unfold LocMaps.create_filename.
  change (str_eqb (lit ".log") (lit ".log")) with true. cbv iota. fold j.
  now rewrite of_strs_plain, with_suffix_plain by (assumption || reflexivity).
Qed.

(** ** Joined segments *)

Lemma nonempty_app_r (x y : str) : nonempty y = true -> nonempty (x ++ y) = true.
Proof. destruct x; [auto|reflexivity]. Qed.

Lemma pad_num_chars (num : str) :
  forallb numeral_char num = true -> forallb numeral_char (LocMaps.pad_num num) = true.
Proof. intros H. rewrite pad_num_zfill. now apply forallb_zfill. Qed.

Lemma pad_num_nonempty (num : str) :
  nonempty num = true -> nonempty (LocMaps.pad_num num) = true.
Proof. intros H. rewrite pad_num_zfill. now apply zfill_nonempty. Qed.

(** The joined segments of an image name: not empty, and plain when the
    segments before the numeral are. *)
Lemma maps_joined_plain (ns : LocMaps.NameSegments) (part : option str) (num : str) :
  nonempty num = true -> forallb numeral_char num = true ->
  forallb plain (LocMaps.image_segments ns part None) = true ->
  let j := join (lit "-") (LocMaps.image_segments ns part (Some num)) in
  nonempty j = true /\ plain j = true.
Proof.
  intros Hne Hnum Hp j. subst j. rewrite image_segments_num by assumption. split.
  - rewrite join_snoc_prefix. apply nonempty_app_r. now apply pad_num_nonempty.
  - apply plain_join. rewrite forallb_app, Hp. cbn [forallb].
    rewrite plain_numeral by now apply pad_num_chars. reflexivity.
Qed.

(** With plain segments, [create_filename] of [loc_maps.py] gives
    distinct names to distinct indices. *)
Lemma maps_create_filename_inj (ns : LocMaps.NameSegments) (part : option str)
      (width i j : Z) :
  forallb plain (LocMaps.image_segments ns part None) = true ->
  LocMaps.create_filename ns part (Some (LocMaps.image_num width i)) (lit ".jpg") =
  LocMaps.create_filename ns part (Some (LocMaps.image_num width j)) (lit ".jpg") ->
  i = j.
Proof.
  intros Hp E.
  destruct (maps_joined_plain ns part (LocMaps.image_num width i)
              (maps_image_num_nonempty _ _) (maps_image_num_chars _ _) Hp) as [Hi1 Hi2].
  destruct (maps_joined_plain ns part (LocMaps.image_num width j)
              (maps_image_num_nonempty _ _) (maps_image_num_chars _ _) Hp) as [Hj1 Hj2].
  rewrite (maps_image_name_plain ns part _ Hi1 Hi2) in E.
  rewrite (maps_image_name_plain ns part _ Hj1 Hj2) in E.
  injection E as E. apply app_inv_tail in E.
  now apply maps_joined_segments_inj in E.
Qed.

(** The name [loc_maps.py] builds for a municipality given as name
    segments, against the name of [loc_sanborn_maps.py]. *)
Lemma scripts_same_name (m : LocSanborn.Municipality) (part : option str) (num : str) :
  truthy_int (LocSanborn.year m) = true ->
  truthy_str (LocSanborn.vol m) = false ->
  LocSanborn.extension m = lit "jpg" ->
  nonempty num = true -> forallb numeral_char num = true ->
  forallb plain ([LocSanborn.name m; LocSanborn.state m]
                 ++ if truthy_str part then [fmt_str part] else []) = true ->
  LocMaps.create_filename
    (LocMaps.mkNameSegments [lit "Sanborn-LOC"; LocSanborn.name m; LocSanborn.state m]
                            (LocSanborn.year m) (LocSanborn.vol m))
    part (Some num) (lit ".jpg")
  = Some (PathLib.mkPath [] [LocSanborn.create_filename m num part]).
Proof.
  intros Hy Hv He Hne Hnum Hp.
  set (ns := LocMaps.mkNameSegments _ _ _).
  assert (Hfront : forallb plain (LocMaps.image_segments ns part None) = true).
  { unfold LocMaps.image_segments, LocMaps.log_segments. cbn [LocMaps.year LocMaps.vol LocMaps.name ns].
    rewrite Hy, Hv. cbn [truthy_str]. cbn [forallb app] in Hp.
    apply andb_true_iff in Hp as [Hn Hp]. apply andb_true_iff in Hp as [Hs Hp].
    destruct (LocSanborn.year m) as [z|]; [|discriminate].
    destruct (truthy_str part); cbn [app forallb fmt_int];
      rewrite Hn, Hs, (plain_numeral (py_str z)) by apply py_str_chars;
      [cbn [forallb] in Hp; rewrite andb_true_r in Hp; rewrite Hp|]; reflexivity. }
  destruct (maps_joined_plain ns part num Hne Hnum Hfront) as [H1 H2].
  rewrite (maps_image_name_plain ns part (Some num) H1 H2). do 3 f_equal.
  unfold LocMaps.image_segments, LocMaps.log_segments, LocSanborn.create_filename,
    LocSanborn.stem, LocMaps.pad_num.
  cbn [LocMaps.year LocMaps.vol LocMaps.name ns]. rewrite Hy, Hv, He.
  cbn [truthy_str fmt_str]. rewrite Hne.
  destruct (truthy_str part); cbn [app join]; rewrite <- !app_assoc; reflexivity.
Qed.

(** ** Parsed paths *)

Lemma split_no_sep (sep : ascii) (x : str) :
  forallb (fun c => negb (mem_char sep c)) (split sep x) = true.
Proof.
  induction x as [|c x IH]; [reflexivity|]. cbn [split].
  destruct (ascii_eqb c sep) eqn:E; [cbn [forallb]; now rewrite IH|].
  destruct (split sep x) as [|w ws]; cbn [forallb] in *.
  - rewrite mem_char_cons, ascii_eqb_sym, E. reflexivity.
  - apply andb_true_iff in IH as [Hw Hws]. rewrite Hws, andb_true_r.
    rewrite mem_char_cons, ascii_eqb_sym, E. exact Hw.
Qed.

Lemma components_are_components (rel : str) :
  forallb component (PathLib.components rel) = true.
Proof.
  unfold PathLib.components. pose proof (split_no_sep PathLib.sep rel) as H.
  induction (split PathLib.sep rel) as [|c l IH]; [reflexivity|].
  cbn [forallb] in H. apply andb_true_iff in H as [Hc Hl]. cbn [List.filter].
  destruct (PathLib.keep_component c) eqn:K; [|now apply IH].
  cbn [forallb]. unfold component at 1. rewrite K, Hc. now apply IH.
Qed.

Lemma splitroot_root_like (part : str) : root_like (fst (PathLib.splitroot part)) = true.
Proof.
  unfold PathLib.splitroot. destruct part as [|c x]; [reflexivity|].
  destruct (ascii_eqb c PathLib.sep); [|reflexivity].
  destruct (_ =? 2); reflexivity.
Qed.

Lemma parse_parts_rev_well_formed (args : list str) :
  root_like (fst (PathLib.parse_parts_rev args)) = true /\
  forallb component (snd (PathLib.parse_parts_rev args)) = true.
Proof.
  induction args as [|part before IH]; [split; reflexivity|].
  cbn [PathLib.parse_parts_rev]. destruct (nonempty part); [|exact IH].
  pose proof (splitroot_root_like part) as Hr.
  destruct (PathLib.splitroot part) as [rt rel]. cbn [fst] in Hr.
  destruct (nonempty rt).
  - split; [exact Hr|apply components_are_components].
  - destruct (PathLib.parse_parts_rev before) as [rt' ps]. cbn [fst snd] in *.
    destruct IH as [IH1 IH2]. split; [exact IH1|].
    rewrite forallb_app, IH2. apply components_are_components.
Qed.

(** Every path [Path(...)] builds is well formed. *)
Lemma of_strs_well_formed (args : list str) : well_formed (PathLib.of_strs args) = true.
Proof.
  unfold PathLib.of_strs, well_formed.
  destruct (parse_parts_rev_well_formed (rev args)) as [H1 H2].
  destruct (PathLib.parse_parts_rev (rev args)) as [rt ps]. cbn [fst snd] in *.
  cbn [PathLib.root PathLib.parts]. now rewrite H1, H2.
Qed.

(** A component parses to itself. *)
Lemma component_parses (c : str) (before : list str) :
  component c = true ->
  PathLib.parse_parts_rev (c :: before) =
  (fst (PathLib.parse_parts_rev before), snd (PathLib.parse_parts_rev before) ++ [c]).
Proof.
  intros Hc. unfold component in Hc. apply andb_true_iff in Hc as [Hk Hs].
  apply negb_true_iff in Hs.
  assert (Hne : nonempty c = true).
  { unfold PathLib.keep_component in Hk. now apply andb_true_iff in Hk as [Hk _]. }
  cbn [PathLib.parse_parts_rev]. rewrite Hne. unfold PathLib.splitroot.
  destruct c as [|d c]; [discriminate|].
  pose proof (mem_char_cons_false _ _ _ Hs) as [Hd _]. rewrite Hd. cbn [nonempty].
  unfold PathLib.components. rewrite split_plain by assumption.
  cbn [List.filter]. rewrite Hk.
  destruct (PathLib.parse_parts_rev before). reflexivity.
Qed.

Lemma components_parse (cs before : list str) :
  forallb component cs = true ->
  PathLib.parse_parts_rev (rev cs ++ before) =
  (fst (PathLib.parse_parts_rev before), snd (PathLib.parse_parts_rev before) ++ cs).
Proof.
  revert before. induction cs as [|c cs IH] using rev_ind; intros before H.
  - cbn [rev app]. rewrite app_nil_r. now destruct (PathLib.parse_parts_rev before).
  - rewrite forallb_app in H. apply andb_true_iff in H as [Hcs Hc].
    cbn [forallb] in Hc. rewrite andb_true_r in Hc.
    rewrite rev_app_distr. cbn [rev app]. rewrite component_parses by assumption.
    rewrite IH by assumption. cbn [fst snd]. now rewrite <- app_assoc.
Qed.

(** A root ends the scan of the arguments. *)
Lemma root_parses (r : str) (before : list str) :
  root_like r = true -> nonempty r = true ->
  PathLib.parse_parts_rev (r :: before) = (r, []).
Proof.
  unfold root_like. intros Hr Hne.
  apply orb_true_iff in Hr as [Hr|Hr]; [apply orb_true_iff in Hr as [Hr|Hr]|];
    apply str_eqb_eq in Hr; subst r; [discriminate|reflexivity|reflexivity].
Qed.

(** [Path(p)] is [p]. *)
Lemma of_strs_as_args (p : PathLib.Path) :
  well_formed p = true -> PathLib.of_strs (PathLib.as_args p) = p.
Proof.
  unfold well_formed. intros H. apply andb_true_iff in H as [Hr Hp].
  destruct p as [r ps]. cbn [PathLib.root PathLib.parts] in *.
  unfold PathLib.of_strs, PathLib.as_args. cbn [PathLib.root PathLib.parts].
  destruct (nonempty r) eqn:Hne.
  - cbn [app rev]. rewrite components_parse by assumption.
    rewrite root_parses by assumption. reflexivity.
  - cbn [app]. rewrite <- (app_nil_r (rev ps)), components_parse by assumption.
    cbn [PathLib.parse_parts_rev fst snd app]. destruct r; [reflexivity|discriminate].
Qed.

(** ** [with_suffix] keeps a path well formed *)

Lemma forallb_last {A} (P : A -> bool) (l : list A) (d : A) :
  forallb P l = true -> l <> [] -> P (List.last l d) = true.
Proof.
  induction l as [|a l IH]; [congruence|]. intros H _. cbn [forallb] in H.
  apply andb_true_iff in H as [Ha Hl]. destruct l as [|b l]; [exact Ha|].
  apply IH; [exact Hl|discriminate].
Qed.

Lemma forallb_removelast {A} (P : A -> bool) (l : list A) :
  forallb P l = true -> forallb P (removelast l) = true.
Proof.
  induction l as [|a l IH]; [reflexivity|]. intros H. cbn [forallb] in H.
  apply andb_true_iff in H as [Ha Hl]. destruct l as [|b l]; [reflexivity|].
  change (removelast (a :: b :: l)) with (a :: removelast (b :: l)).
  cbn [forallb]. now rewrite Ha, IH.
Qed.

Lemma mem_char_take (c : ascii) (n : nat) (x : str) :
  mem_char c x = false -> mem_char c (take n x) = false.
Proof.
  revert n. induction x as [|d x IH]; intros [|n] H; try reflexivity.
  apply mem_char_cons_false in H as [Hd Hx]. cbn [take].
  rewrite mem_char_cons, ascii_eqb_sym, Hd. now apply IH.
Qed.

Lemma not_dot_app (a sfx : str) :
  nonempty sfx = true -> str_eqb sfx (lit ".") = false ->
  str_eqb (a ++ sfx) (lit ".") = false.
Proof.
  intros Hne Hd. destruct a as [|c a]; [exact Hd|].
  change (str_eqb ((c :: a) ++ sfx) (lit "."))
    with (ascii_eqb c "."%char && str_eqb (a ++ sfx) []).
  destruct (a ++ sfx) eqn:E; [|now rewrite andb_false_r].
  destruct a; [|discriminate]. simpl in E. subst sfx. discriminate.
Qed.

Lemma name_is_component (p : PathLib.Path) :
  well_formed p = true -> nonempty (PathLib.name p) = true ->
  PathLib.parts p <> [] /\ component (PathLib.name p) = true.
Proof.
  unfold well_formed, PathLib.name. intros H Hne.
  apply andb_true_iff in H as [_ Hp].
  assert (Hnn : PathLib.parts p <> []) by (intros E; rewrite E in Hne; discriminate).
  split; [exact Hnn|]. now apply forallb_last.
Qed.

(** What [with_suffix] returns for a non-empty suffix: a well-formed
    path with the same root and at least one component. *)
Lemma with_suffix_well_formed (p q : PathLib.Path) (sfx : str) :
  well_formed p = true -> nonempty sfx = true ->
  PathLib.with_suffix p sfx = Some q ->
  well_formed q = true /\ PathLib.root q = PathLib.root p /\ PathLib.parts q <> [].
Proof.
  intros Hwf Hne. unfold PathLib.with_suffix.
  destruct (mem_char PathLib.sep sfx) eqn:Hsep; [discriminate|].
  rewrite Hne. cbn [andb].
  destruct (negb (PathLib.starts_with_dot sfx)) eqn:Hstart; [discriminate|].
  destruct (str_eqb sfx (lit ".")) eqn:Hdot; [discriminate|]. cbn [orb].
  destruct (nonempty (PathLib.name p)) eqn:Hname; [|discriminate].
  destruct (name_is_component p Hwf Hname) as [Hnn Hc].
  intros [= <-]. cbn [PathLib.root PathLib.parts]. split; [|split].
  - unfold well_formed in *. cbn [PathLib.root PathLib.parts].
    apply andb_true_iff in Hwf as [Hr Hp]. rewrite Hr. cbn [andb].
    rewrite forallb_app, forallb_removelast by assumption. cbn [forallb andb].
    rewrite andb_true_r. unfold component in *.
    apply andb_true_iff in Hc as [_ Hs]. apply negb_true_iff in Hs.
    unfold PathLib.keep_component.
    destruct (nonempty (PathLib.suffix p)).
    + rewrite nonempty_app_r, not_dot_app, mem_char_app, mem_char_take, Hsep by assumption.
      reflexivity.
    + rewrite nonempty_app_r, not_dot_app, mem_char_app, Hs, Hsep by assumption.
      reflexivity.
  - reflexivity.
  - intros E. destruct (removelast (PathLib.parts p)); discriminate.
Qed.

Lemma create_filename_well_formed (ns : LocMaps.NameSegments) (part num : option str)
      (extension : str) (filename : PathLib.Path) :
  nonempty extension = true ->
  LocMaps.create_filename ns part num extension = Some filename ->
  well_formed filename = true /\ PathLib.parts filename <> [].
Proof.
  intros Hne. unfold LocMaps.create_filename.
  destruct (str_eqb extension (lit ".log")); intros H;
    apply with_suffix_well_formed in H as (H1 & _ & H2);
    auto using of_strs_well_formed.
Qed.

(** ** [create_filepath] *)

Lemma parse_parts_rev_cons (a : str) (xs ys : list str) :
  PathLib.parse_parts_rev xs = PathLib.parse_parts_rev ys ->
  PathLib.parse_parts_rev (a :: xs) = PathLib.parse_parts_rev (a :: ys).
Proof. intros E. cbn [PathLib.parse_parts_rev]. now rewrite E. Qed.

(** The directory the files go to. *)
Lemma directory_parse (w : World) (out : str) :
  PathLib.parse_parts_rev (out :: rev (PathLib.as_args (PathLib.of_strs [cwd w]))) =
  PathLib.parse_parts_rev [out; cwd w].
Proof.
  apply parse_parts_rev_cons.
  pose proof (of_strs_as_args _ (of_strs_well_formed [cwd w])) as E.
  unfold PathLib.of_strs at 1 3 in E. cbn [rev app] in E.
  destruct (PathLib.parse_parts_rev (rev (PathLib.as_args (PathLib.of_strs [cwd w])))).
  destruct (PathLib.parse_parts_rev [cwd w]). congruence.
Qed.

Lemma create_filepath_cases (w : World) (out : str) (filename : PathLib.Path) :
  well_formed filename = true ->
  LocMaps.create_filepath w out filename =
  if nonempty (PathLib.root filename) then filename
  else PathLib.mkPath (PathLib.root (PathLib.of_strs [cwd w; out]))
                      (PathLib.parts (PathLib.of_strs [cwd w; out])
                       ++ PathLib.parts filename).
Proof.
  intros Hwf. unfold LocMaps.create_filepath, PathLib.of_strs at 1.
  pose proof Hwf as Hwf'. unfold well_formed in Hwf'.
  apply andb_true_iff in Hwf' as [Hr Hp].
  rewrite !rev_app_distr. cbn [rev app]. unfold PathLib.as_args at 1.
  destruct filename as [r ps]. cbn [PathLib.root PathLib.parts] in *.
  destruct (nonempty r) eqn:Hne.
  - cbn [app rev]. rewrite <- !app_assoc. cbn [app].
    rewrite (components_parse ps _ Hp).
    rewrite (root_parses r _ Hr Hne). reflexivity.
  - cbn [app rev]. rewrite <- !app_assoc. cbn [app].
    rewrite (components_parse ps _ Hp).
    rewrite directory_parse. unfold PathLib.of_strs. cbn [rev app].
    destruct (PathLib.parse_parts_rev [out; cwd w]). reflexivity.
Qed.

Lemma create_filepath_keeps_name (w : World) (out : str) (filename : PathLib.Path) :
  well_formed filename = true -> PathLib.parts filename <> [] ->
  PathLib.name (LocMaps.create_filepath w out filename) = PathLib.name filename.
Proof.
  intros Hwf Hnn. rewrite create_filepath_cases by assumption.
  destruct (nonempty (PathLib.root filename)); [reflexivity|].
  unfold PathLib.name. cbn [PathLib.parts].
  destruct (PathLib.parts filename) as [|c cs] using rev_ind; [congruence|].
  now rewrite app_assoc, !last_last.
Qed.

(** A rooted argument hides what comes before it. *)
Lemma parse_parts_rev_rooted (l : list str) (c : ascii) (x : str) (xs ys : list str) :
  ascii_eqb c PathLib.sep = true ->
  PathLib.parse_parts_rev (l ++ (c :: x) :: xs) =
  PathLib.parse_parts_rev (l ++ (c :: x) :: ys).
Proof.
  intros Hc. induction l as [|a l IH].
  - cbn [app PathLib.parse_parts_rev nonempty]. unfold PathLib.splitroot. rewrite Hc.
    destruct (_ =? 2); reflexivity.
  - cbn [app]. now apply parse_parts_rev_cons.
Qed.

Lemma create_filepath_absolute (w w' : World) (c : ascii) (out : str)
      (filename : PathLib.Path) :
  ascii_eqb c PathLib.sep = true ->
  LocMaps.create_filepath w (c :: out) filename =
  LocMaps.create_filepath w' (c :: out) filename.
Proof.
  intros Hc. unfold LocMaps.create_filepath, PathLib.of_strs.
  rewrite !rev_app_distr. cbn [rev app]. rewrite <- !app_assoc. cbn [app].
  now rewrite (parse_parts_rev_rooted _ c out _
                 (rev (PathLib.as_args (PathLib.of_strs [cwd w'])))).
Qed.

(** ** Names with a dot *)

Lemma rfind_dot_lt (x : str) (p : nat) : PathLib.rfind_dot x = Some p -> p < length x.
Proof.
  revert p. induction x as [|c x IH]; intros p; [discriminate|]. cbn [PathLib.rfind_dot].
  destruct (PathLib.rfind_dot x) as [k|].
  - intros [= <-]. specialize (IH k eq_refl). simpl. lia.
  - destruct (ascii_eqb c "."%char); [|discriminate]. intros [= <-]. simpl. lia.
Qed.

(** A tail without a dot does not move the last dot. *)
Lemma rfind_dot_app (x tail : str) (p : nat) :
  PathLib.rfind_dot x = Some p -> mem_char "."%char tail = false ->
  PathLib.rfind_dot (x ++ tail) = Some p.
Proof.
  intros Hx Ht. revert p Hx. induction x as [|c x IH]; intros p Hx; [discriminate|].
  cbn [app PathLib.rfind_dot] in *.
  destruct (PathLib.rfind_dot x) as [k|] eqn:E.
  - now rewrite (IH k eq_refl).
  - destruct x as [|d x]; [|].
    + cbn [app]. now rewrite (rfind_dot_none tail Ht).
    + assert (H : PathLib.rfind_dot ((d :: x) ++ tail) = None).
      { clear IH Hx. revert E. generalize (d :: x) as y. induction y as [|e y IHy].
        - intros _. now apply rfind_dot_none.
        - cbn [app PathLib.rfind_dot]. destruct (PathLib.rfind_dot y); [discriminate|].
          destruct (ascii_eqb e "."%char); [discriminate|]. intros _. now rewrite IHy. }
      now rewrite H.
Qed.

Lemma of_strs_component (x : str) :
  component x = true -> PathLib.of_strs [x] = PathLib.mkPath [] [x].
Proof.
  intros H. unfold PathLib.of_strs. cbn [rev app]. now rewrite component_parses.
Qed.

(** On a name whose last dot is neither its first nor its last
    character, [with_suffix] replaces everything from that dot on. *)
Lemma with_suffix_dotted (x sfx : str) (p : nat) :
  PathLib.rfind_dot x = Some p -> 0 < p -> p < length x - 1 ->
  extension_like sfx = true ->
  PathLib.with_suffix (PathLib.mkPath [] [x]) sfx
  = Some (PathLib.mkPath [] [take p x ++ sfx]).
Proof.
  intros Hp H0 H1 Hs. unfold extension_like in Hs.
  apply andb_true_iff in Hs as [Hs Hdot]. apply andb_true_iff in Hs as [Hstart Hsep].
  apply negb_true_iff in Hsep, Hdot.
  unfold PathLib.with_suffix. rewrite Hsep, Hstart, Hdot. simpl negb.
  rewrite andb_false_r. simpl orb. cbv iota.
  unfold PathLib.suffix, PathLib.name. simpl List.last.
  assert (Hne : nonempty x = true) by (destruct x; [simpl in H1; lia|reflexivity]).
  rewrite Hne, Hp.
  assert (E1 : (0 <? p) = true) by now apply Nat.ltb_lt.
  assert (E2 : (p <? length x - 1) = true) by now apply Nat.ltb_lt.
  rewrite E1, E2. cbn [andb].
  assert (Hd : nonempty (drop p x) = true).
  { destruct (drop p x) eqn:E; [|reflexivity].
    apply (f_equal (@length _)) in E. rewrite length_drop in E. simpl in E. lia. }
  rewrite Hd, length_drop. cbn [PathLib.root PathLib.parts removelast app].
  replace (length x - (length x - p)) with p by lia. reflexivity.
Qed.

(** With a dot in the segments before the number, the file name of
    [loc_maps.py] does not depend on the index. *)
Lemma maps_dotted_name (ns : LocMaps.NameSegments) (part : option str) (width i : Z)
      (p : nat) :
  let front := join (lit "-") (LocMaps.image_segments ns part None) in
  mem_char PathLib.sep front = false ->
  PathLib.rfind_dot front = Some p -> 0 < p ->
  LocMaps.create_filename ns part (Some (LocMaps.image_num width i)) (lit ".jpg")
  = Some (PathLib.mkPath [] [take p front ++ lit ".jpg"]).
Proof.
  intros front Hsep Hp H0. unfold LocMaps.create_filename.
  change (str_eqb (lit ".jpg") (lit ".log")) with false. cbv iota.
  rewrite image_segments_num by apply maps_image_num_nonempty.
  set (num := LocMaps.pad_num _).
  assert (Hnum : forallb numeral_char num = true)
    by (apply pad_num_chars, maps_image_num_chars).
  assert (Hnn : nonempty num = true)
    by (apply pad_num_nonempty, maps_image_num_nonempty).
  pose proof (rfind_dot_lt front p Hp) as Hlt.
  assert (Hfront : LocMaps.image_segments ns part None <> []).
  { intros E. subst front. rewrite E in Hp. discriminate. }
  assert (Hj : join (lit "-") (LocMaps.image_segments ns part None ++ [num])
               = front ++ lit "-" ++ num).
  { subst front. clear -Hfront.
    induction (LocMaps.image_segments ns part None) as [|y l IH]; [congruence|].
    destruct l as [|z l]; [reflexivity|].
    change (join (lit "-") ((y :: z :: l) ++ [num]))
      with (y ++ lit "-" ++ join (lit "-") ((z :: l) ++ [num])).
    rewrite IH by discriminate.
    change (join (lit "-") (y :: z :: l)) with (y ++ lit "-" ++ join (lit "-") (z :: l)).
    now rewrite <- !app_assoc. }
  rewrite Hj.
  assert (Htail : mem_char "."%char (lit "-" ++ num) = false).
  { rewrite mem_char_app, (numeral_not_char "."%char num); auto. }
  assert (Hc : component (front ++ lit "-" ++ num) = true).
  { unfold component, PathLib.keep_component.
    rewrite nonempty_app_r by (now apply nonempty_app_r).
    rewrite not_dot_app by reflexivity || (destruct num; [discriminate|reflexivity]).
    rewrite !mem_char_app, Hsep, (numeral_not_char PathLib.sep num); auto. }
  rewrite (of_strs_component _ Hc).
  rewrite (with_suffix_dotted _ (lit ".jpg") p (rfind_dot_app _ _ _ Hp Htail) H0);
    [|rewrite length_app; simpl; destruct num; [discriminate|simpl; lia]|reflexivity].
  rewrite take_app_le by lia. reflexivity.
Qed.

(** ** The files of a batch *)


Lemma store_all_app {A} (target : A -> str) (l1 l2 : list A) (rs1 rs2 : list Response)
      (fs : gmap str (list Byte.byte)) :
  length rs1 = length l1 ->
  store_all target (l1 ++ l2) (rs1 ++ rs2) fs =
  store_all target l2 rs2 (store_all target l1 rs1 fs).
Proof.
  revert rs1 fs. induction l1 as [|x l1 IH]; intros [|r rs1] fs H; try discriminate.
  - reflexivity.
  - simpl in *. apply IH. lia.
Qed.



Section BatchFiles.
Context {A : Type}.
Variable w : World.
Variable body : A -> M unit.
Variable url_of : A -> option str.
Variable target : A -> str.
Variable shown : A -> str.

Hypothesis body_turn : forall x st,
  body x st =
  match url_of x with
  | None => (st, inl ReError)
  | Some url =>
      match http_get w (length (requests st)) url with
      | None => (sent url st, inl (RequestException url))
      | Some r =>
          (logged INFO (snd (renamed (shown x)))
             (stored (target x) (content r) (sent url st)), inr tt)
      end
  end.




End BatchFiles.

(** ** The state [main] leaves *)



(** ** [range], by position *)





(** ** Jobs without work *)



(** ** One group *)




(** ** Runs that end in the loop *)





(** The log file name cannot be built: [main] ends before the loop. *)
Lemma maps_no_log_name (w : World) (host out : str) (cfg : LocMaps.MapConfig) :
  LocMaps.create_filename (LocMaps.filename_segments cfg) None None (lit ".log") = None ->
  LocMaps.main w host cfg out initial = (mkState [] ∅ [] None 1, inl ValueError).
Proof.
  intros H. unfold LocMaps.main, LocMaps.configure_logger, bind, now_isoformat.
  cbv beta iota. rewrite H. reflexivity.
Qed.

Lemma log_name_of_nothing (ns : LocMaps.NameSegments) (part num : option str) :
  join (lit "-") (LocMaps.log_segments ns) = [] ->
  LocMaps.create_filename ns part num (lit ".log") = None.
Proof.
  intros H. unfold LocMaps.create_filename.
  change (str_eqb (lit ".log") (lit ".log")) with true. cbv iota. rewrite H. reflexivity.
Qed.

(** ** Where [loc_maps.py] writes a plain name *)






(** ** The body each file holds *)




(** * Further properties of the two scripts *)

(** ** File names *)

(** X1. For every index and every width, the call of [create_filename] that
    [main] of [loc_maps.py] makes for an image returns a file name: the
    [ValueError] of [with_suffix] cannot occur there, whatever the name
    segments and the part. *)
Theorem create_filename_returns (ns : LocMaps.NameSegments) (part : option str)
        (width i : Z) :
  exists filename,
    LocMaps.create_filename ns part (Some (LocMaps.image_num width i)) (lit ".jpg")
    = Some filename.
Proof.
  apply create_filename_image; [apply maps_image_num_nonempty|apply maps_image_num_chars].
Qed.

(** X2. When the name segments, the year and the volume give nothing to
    join, the log file name cannot be built: [main] of [loc_maps.py] ends
    with the [ValueError] of [with_suffix] after reading the clock once,
    before any record is logged and before any request. *)
Theorem log_name_failure_ends_run (w : World) (host out : str) (cfg : LocMaps.MapConfig) :
  join (lit "-") (LocMaps.log_segments (LocMaps.filename_segments cfg)) = [] ->
  LocMaps.main w host cfg out initial = (mkState [] ∅ [] None 1, inl ValueError).
Proof. intros H. apply maps_no_log_name. now apply log_name_of_nothing. Qed.

Lemma log_name_failure_ends_run_witness :
  LocMaps.main (Sample.answering 200) Sample.host
    (LocMaps.mkMapConfig (LocMaps.mkNameSegments [] None None) [Sample.group])
    Sample.out initial
  = (mkState [] ∅ [] None 1, inl ValueError).
Proof.
  apply (log_name_failure_ends_run (Sample.answering 200) Sample.host Sample.out
           (LocMaps.mkMapConfig (LocMaps.mkNameSegments [] None None) [Sample.group])).
  reflexivity.
Defined.

(** X3. When the joined segments are not empty and hold neither a dot nor a
    slash, [create_filename] of [loc_maps.py] returns the joined segments
    followed by the extension, as a path of one component: for an image the
    segments up to the number, for a log file the segments up to the volume. *)
Theorem create_filename_plain (ns : LocMaps.NameSegments) (part num : option str) :
  (let j := join (lit "-") (LocMaps.image_segments ns part num) in
   nonempty j = true -> plain j = true ->
   LocMaps.create_filename ns part num (lit ".jpg")
   = Some (PathLib.mkPath [] [j ++ lit ".jpg"]) /\
   option_map PathLib.to_str (LocMaps.create_filename ns part num (lit ".jpg"))
   = Some (j ++ lit ".jpg")) /\
  (let j := join (lit "-") (LocMaps.log_segments ns) in
   nonempty j = true -> plain j = true ->
   LocMaps.create_filename ns part num (lit ".log")
   = Some (PathLib.mkPath [] [j ++ lit ".log"]) /\
   option_map PathLib.to_str (LocMaps.create_filename ns part num (lit ".log"))
   = Some (j ++ lit ".log")).
Proof.
  split; intros j Hne Hp.
  - rewrite (maps_image_name_plain ns part num Hne Hp). split; [reflexivity|].
    simpl option_map. now rewrite to_str_single by now apply nonempty_app_l.
  - rewrite (maps_log_name_plain ns part num Hne Hp). split; [reflexivity|].
    simpl option_map. now rewrite to_str_single by now apply nonempty_app_l.
Qed.

Lemma create_filename_plain_witness :
  option_map PathLib.to_str
    (LocMaps.create_filename Sample.naming (Some (lit "index")) (Some (lit "7")) (lit ".jpg"))
  = Some (lit "Sanborn-LOC-Springfield-IL-1925-index-0007.jpg").
Proof.
  apply (proj1 (create_filename_plain Sample.naming (Some (lit "index")) (Some (lit "7")))
           eq_refl eq_refl).
Defined.

(** X4. When the segments placed before the number hold neither a dot nor a
    slash, [create_filename] of [loc_maps.py] gives distinct names to
    distinct indices of a group. *)
Theorem maps_filenames_distinct (ns : LocMaps.NameSegments) (part : option str)
        (width i j : Z) :
  forallb plain (LocMaps.image_segments ns part None) = true ->
  i <> j ->
  LocMaps.create_filename ns part (Some (LocMaps.image_num width i)) (lit ".jpg") <>
  LocMaps.create_filename ns part (Some (LocMaps.image_num width j)) (lit ".jpg").
Proof. intros Hp Hij E. now apply maps_create_filename_inj in E. Qed.

Lemma maps_filenames_distinct_witness :
  LocMaps.create_filename Sample.naming None (Some (LocMaps.image_num 4 1)) (lit ".jpg") <>
  LocMaps.create_filename Sample.naming None (Some (LocMaps.image_num 4 2)) (lit ".jpg").
Proof.
  apply (maps_filenames_distinct Sample.naming None 4 1 2); [reflexivity|discriminate].
Defined.

(** X5. [create_filename] of [loc_sanborn_maps.py] gives distinct file names
    to distinct indices of a group, whatever the municipality and the part. *)
Theorem sanborn_filenames_distinct (m : LocSanborn.Municipality) (part : option str)
        (pad : bool) (i j : Z) :
  i <> j ->
  LocSanborn.create_filename m (LocSanborn.image_num pad i) part <>
  LocSanborn.create_filename m (LocSanborn.image_num pad j) part.
Proof. intros Hij E. apply sanborn_create_filename_inj in E. contradiction. Qed.

Lemma sanborn_filenames_distinct_witness :
  LocSanborn.create_filename Sample.municipality (LocSanborn.image_num true 1) None <>
  LocSanborn.create_filename Sample.municipality (LocSanborn.image_num true 2) None.
Proof.
  apply (sanborn_filenames_distinct Sample.municipality None true 1 2). discriminate.
Defined.

(** X6. When the segments placed before the number hold no slash and their
    last dot is not their first character, [create_filename] of
    [loc_maps.py] returns one and the same name for every index of the
    group: the joined segments up to that dot, followed by the extension. *)
Theorem dotted_names_collide (ns : LocMaps.NameSegments) (part : option str)
        (width i j : Z) (p : nat) :
  let front := join (lit "-") (LocMaps.image_segments ns part None) in
  mem_char PathLib.sep front = false ->
  PathLib.rfind_dot front = Some p -> 0 < p ->
  LocMaps.create_filename ns part (Some (LocMaps.image_num width i)) (lit ".jpg")
  = Some (PathLib.mkPath [] [take p front ++ lit ".jpg"]) /\
  LocMaps.create_filename ns part (Some (LocMaps.image_num width i)) (lit ".jpg") =
  LocMaps.create_filename ns part (Some (LocMaps.image_num width j)) (lit ".jpg").
Proof.
  intros front Hsep Hp H0.
  rewrite (maps_dotted_name ns part width i p Hsep Hp H0).
  rewrite (maps_dotted_name ns part width j p Hsep Hp H0). split; reflexivity.
Qed.

Lemma dotted_names_collide_witness :
  let ns := LocMaps.mkNameSegments [lit "Sanborn-LOC"; lit "St. Louis"; lit "MO"]
                                   (Some 1909%Z) None in
  LocMaps.create_filename ns None (Some (LocMaps.image_num 4 1)) (lit ".jpg")
  = Some (PathLib.mkPath [] [lit "Sanborn-LOC-St.jpg"]) /\
  LocMaps.create_filename ns None (Some (LocMaps.image_num 4 1)) (lit ".jpg") =
  LocMaps.create_filename ns None (Some (LocMaps.image_num 4 2)) (lit ".jpg").
Proof.
  intros ns. apply (dotted_names_collide ns None 4 1 2 14); [reflexivity|reflexivity|lia].
Defined.

(** X7. For a municipality with a year, without a volume, with the extension
    [jpg] and with a name, a state and a part that hold neither a dot nor a
    slash, [loc_maps.py] given the segments [Sanborn-LOC], name and state
    builds the file name that [loc_sanborn_maps.py] builds, for every index. *)
Theorem scripts_same_filename (m : LocSanborn.Municipality) (part : option str)
        (pad : bool) (i : Z) :
  truthy_int (LocSanborn.year m) = true ->
  truthy_str (LocSanborn.vol m) = false ->
  LocSanborn.extension m = lit "jpg" ->
  forallb plain ([LocSanborn.name m; LocSanborn.state m]
                 ++ if truthy_str part then [fmt_str part] else []) = true ->
  option_map PathLib.to_str
    (LocMaps.create_filename
       (LocMaps.mkNameSegments [lit "Sanborn-LOC"; LocSanborn.name m; LocSanborn.state m]
                               (LocSanborn.year m) (LocSanborn.vol m))
       part (Some (LocSanborn.image_num pad i)) (lit ".jpg"))
  = Some (LocSanborn.create_filename m (LocSanborn.image_num pad i) part).
Proof.
  intros Hy Hv He Hp.
  assert (Hne : nonempty (LocSanborn.image_num pad i) = true).
  { rewrite sanborn_image_num_zfill. apply zfill_nonempty, py_str_nonempty. }
  rewrite (scripts_same_name m part _ Hy Hv He Hne (sanborn_image_num_chars pad i) Hp).
  simpl option_map. rewrite to_str_single; [reflexivity|].
  unfold LocSanborn.create_filename, LocSanborn.stem.
  destruct (truthy_str (LocSanborn.vol m)), (truthy_str part); reflexivity.
Qed.

Lemma scripts_same_filename_witness :
  option_map PathLib.to_str
    (LocMaps.create_filename Sample.naming None (Some (LocSanborn.image_num true 7))
                             (lit ".jpg"))
  = Some (LocSanborn.create_filename Sample.municipality (LocSanborn.image_num true 7) None).
Proof.
  apply (scripts_same_filename Sample.municipality None true 7); reflexivity.
Defined.

(** X8. In [loc_sanborn_maps.py] the path an image is written to is never
    the path of the log file of the run, whatever the image number and the
    part. *)
Theorem sanborn_image_not_log (m : LocSanborn.Municipality) (out image_id : str)
        (part : option str) :
  out ++ lit "/" ++ LocSanborn.create_filename m image_id part <>
  out ++ lit "/" ++ LocSanborn.stem m ++ lit ".log".
Proof.
  intros E. apply app_inv_head in E. apply app_inv_head in E.
  unfold LocSanborn.create_filename in E.
  destruct (truthy_str part).
  - rewrite <- !app_assoc in E. apply app_inv_head in E. discriminate.
  - apply app_inv_head in E. discriminate.
Qed.

(** ** Image numbers and tokens *)

(** X9. The image number of both scripts, and the numeral [create_filename]
    of [loc_maps.py] puts in the file name, read back as the index they were
    made from, for every index, width and padding flag. *)
Theorem image_num_reads_back (width : Z) (pad : bool) (ns : LocMaps.NameSegments)
        (part : option str) (i : Z) :
  int_value (LocMaps.image_num width i) = Some i /\
  int_value (LocSanborn.image_num pad i) = Some i /\
  int_value (LocMaps.filename_numeral ns part width i) = Some i.
Proof.
  rewrite maps_image_num_zfill, sanborn_image_num_zfill.
  unfold LocMaps.filename_numeral.
  destruct (image_segments_snoc ns part _ (maps_image_num_nonempty width i)) as [front ->].
  rewrite last_snoc, pad_num_zfill, maps_image_num_zfill, zfill_zfill.
  repeat split; apply int_value_zfill.
Qed.

(** X10. In both scripts distinct indices of a group give distinct
    replacement tokens. *)
Theorem replacement_distinct (mpath : LocMaps.PathConfig) (spath : LocSanborn.PathConfig)
        (i j : Z) :
  i <> j ->
  LocMaps.replacement mpath i <> LocMaps.replacement mpath j /\
  LocSanborn.replacement spath i <> LocSanborn.replacement spath j.
Proof.
  intros Hij. unfold LocMaps.replacement, LocSanborn.replacement.
  rewrite !maps_image_num_zfill, !sanborn_image_num_zfill.
  split; intros E; apply app_inv_head in E; apply zfill_py_str_inj in E; contradiction.
Qed.

Lemma replacement_distinct_witness :
  LocMaps.replacement Sample.group 1 <> LocMaps.replacement Sample.group 2 /\
  LocSanborn.replacement Sample.sanborn_group 1 <> LocSanborn.replacement Sample.sanborn_group 2.
Proof.
  apply (replacement_distinct Sample.group Sample.sanborn_group 1 2). discriminate.
Defined.

(** X11. For a negative index the image number of [loc_maps.py] keeps the
    sign in front: the zeros of [zfill] come after the minus sign and the
    width counts the sign. *)
Theorem image_num_negative (width : Z) (i : Z) :
  (i < 0)%Z ->
  LocMaps.image_num width i =
  "-"%char :: repeat "0"%char (Z.to_nat (width - len (py_str i))) ++ py_str (- i).
Proof.
  intros Hi. destruct i as [|p|p]; try lia.
  rewrite maps_image_num_zfill, py_str_neg. simpl Z.opp.
  apply zfill_signed. reflexivity.
Qed.

Lemma image_num_negative_witness :
  (-5 < 0)%Z /\ LocMaps.image_num 4 (-5) = lit "-005".
Proof.
  split; [lia|]. rewrite (image_num_negative 4 (-5)) by lia. reflexivity.
Defined.

(** ** File paths *)

(** X12. For every file name [create_filename] returns with a non-empty
    extension, the name of the path [create_filepath] builds, which is the
    name [main] logs, is the name of that file name, whatever the working
    directory and the output path. *)
Theorem logged_name_is_built_name (w : World) (out : str) (ns : LocMaps.NameSegments)
        (part num : option str) (extension : str) (filename : PathLib.Path) :
  nonempty extension = true ->
  LocMaps.create_filename ns part num extension = Some filename ->
  PathLib.name (LocMaps.create_filepath w out filename) = PathLib.name filename.
Proof.
  intros Hne H. destruct (create_filename_well_formed _ _ _ _ _ Hne H) as [Hwf Hnn].
  now apply create_filepath_keeps_name.
Qed.

Lemma logged_name_is_built_name_witness :
  PathLib.name (LocMaps.create_filepath (Sample.answering 200) Sample.out
                  (PathLib.mkPath [] [lit "Sanborn-LOC-Springfield-IL-1925-0007.jpg"]))
  = lit "Sanborn-LOC-Springfield-IL-1925-0007.jpg".
Proof.
  apply (logged_name_is_built_name (Sample.answering 200) Sample.out Sample.naming None
           (Some (lit "7")) (lit ".jpg")); reflexivity.
Defined.

(** X13. For every file name [create_filename] returns with a non-empty
    extension: a file name with a root (its first segment starts with a
    slash) is the file path itself, the working directory and the output
    path are dropped; any other file name is placed under the directory
    [Path(cwd, output_path)], its components after those of the directory. *)
Theorem create_filepath_placement (w : World) (out : str) (ns : LocMaps.NameSegments)
        (part num : option str) (extension : str) (filename : PathLib.Path) :
  nonempty extension = true ->
  LocMaps.create_filename ns part num extension = Some filename ->
  LocMaps.create_filepath w out filename =
  if nonempty (PathLib.root filename) then filename
  else PathLib.mkPath (PathLib.root (PathLib.of_strs [cwd w; out]))
                      (PathLib.parts (PathLib.of_strs [cwd w; out])
                       ++ PathLib.parts filename).
Proof.
  intros Hne H. destruct (create_filename_well_formed _ _ _ _ _ Hne H) as [Hwf _].
  now apply create_filepath_cases.
Qed.

Lemma create_filepath_placement_witness :
  PathLib.to_str
    (LocMaps.create_filepath (Sample.answering 200) Sample.out
       (PathLib.mkPath (lit "/") [lit "tmp"; lit "x-0007.jpg"]))
  = lit "/tmp/x-0007.jpg".
Proof.
  rewrite (create_filepath_placement (Sample.answering 200) Sample.out
             (LocMaps.mkNameSegments [lit "/tmp/x"] None None) None (Some (lit "7"))
             (lit ".jpg") (PathLib.mkPath (lit "/") [lit "tmp"; lit "x-0007.jpg"])
             eq_refl eq_refl).
  reflexivity.
Defined.

(** X14. With an output path that starts with a slash, the file path does
    not depend on the working directory. *)
Theorem absolute_output_ignores_cwd (w w' : World) (c : ascii) (out : str)
        (filename : PathLib.Path) :
  ascii_eqb c PathLib.sep = true ->
  LocMaps.create_filepath w (c :: out) filename =
  LocMaps.create_filepath w' (c :: out) filename.
Proof. apply create_filepath_absolute. Qed.

Lemma absolute_output_ignores_cwd_witness :
  LocMaps.create_filepath (mkWorld (fun _ _ => None) Sample.timestamp (lit "/home/a"))
    (lit "/srv/maps") (PathLib.mkPath [] [lit "x.jpg"]) =
  LocMaps.create_filepath (mkWorld (fun _ _ => None) Sample.timestamp (lit "/home/b"))
    (lit "/srv/maps") (PathLib.mkPath [] [lit "x.jpg"]).
Proof.
  apply (absolute_output_ignores_cwd
           (mkWorld (fun _ _ => None) Sample.timestamp (lit "/home/a"))
           (mkWorld (fun _ _ => None) Sample.timestamp (lit "/home/b"))
           "/"%char (lit "srv/maps")).
  reflexivity.
Defined.

(** ** Runs *)












